(** * mlist.py: a LIST.COM-style text viewer with a directory browser

    A shallow embedding of [src/mlist.py] and the properties of its
    loader, viewport rule, key handling, search and directory browser.

    Python values are modelled as follows.
    - [int] is [Z] (unbounded).
    - [str] is a list of Unicode code points ([list N]); [bytes] is
      [list byte].
    - A raised exception is the [Raise] branch of the result type [res].
    - The terminal and the filesystem are inputs of each loop iteration:
      the key returned by [getch], the bytes returned by [getstr], the
      height returned by [getmaxyx], the outcome of [os.listdir].
    - Writes to the screen ([draw], the prompts, the status lines) read
      the state and never assign to it; of these only the rows of the
      browser are modelled. *)

From Stdlib Require Import Strings.String Strings.Ascii Strings.Byte.
From Stdlib Require Import ZArith NArith List Bool Lia.
From Stdlib Require Import Sorting.Permutation Sorting.Sorted.
From Stdlib Require DecimalString.
Import ListNotations.
Local Open Scope Z_scope.

(** ** Exceptions and results *)

Inductive exn : Type :=
| ValueError
| IndexError
| OSError                 (* IOError is an alias of OSError *)
| UnicodeDecodeError
| SystemExit (code : Z).

Inductive res (A : Type) : Type :=
| Ok (a : A)
| Raise (e : exn).
Arguments Ok {A} a.
Arguments Raise {A} e.

Definition bind {A B : Type} (c : res A) (k : A -> res B) : res B :=
  match c with
  | Ok a => k a
  | Raise e => Raise e
  end.

Notation "x <- c ;; k" := (bind c (fun x => k))
  (at level 61, c at next level, right associativity).

(** ** Strings, bytes and lists *)

Definition str : Type := list N.
Definition bytes : Type := list byte.

(** A literal of ASCII characters as a [str]. *)
Definition lit (s : string) : str :=
  map (fun b => Byte.to_N b) (list_byte_of_string s).

(** [len(l)] *)
Definition len {A : Type} (l : list A) : Z := Z.of_nat (length l).

(** [l[i]]: indices [-len(l) <= i < 0] count from the end, any index
    outside [-len(l) <= i < len(l)] raises IndexError. *)
Definition getitem {A : Type} (l : list A) (i : Z) : res A :=
  let j := if i <? 0 then i + len l else i in
  if j <? 0 then Raise IndexError
  else match nth_error l (Z.to_nat j) with
       | Some a => Ok a
       | None => Raise IndexError
       end.

(** [l[:k]] *)
Definition slice_to {A : Type} (l : list A) (k : Z) : list A :=
  let j := if k <? 0 then Z.max 0 (k + len l) else k in
  firstn (Z.to_nat j) l.

Fixpoint str_eqb (a b : str) : bool :=
  match a, b with
  | [], [] => true
  | x :: a', y :: b' => N.eqb x y && str_eqb a' b'
  | _, _ => false
  end.

(** [s.startswith(p)] *)
Fixpoint startswith (p s : str) : bool :=
  match p, s with
  | [], _ => true
  | _ :: _, [] => false
  | x :: p', y :: s' => N.eqb x y && startswith p' s'
  end.

(** [sub in s]: the substring test (the empty string is in every string). *)
Fixpoint contains (sub s : str) : bool :=
  startswith sub s ||
  match s with
  | [] => false
  | _ :: s' => contains sub s'
  end.

(** Comparison of strings by code points, as [<=] on [str]. *)
Fixpoint str_leb (a b : str) : bool :=
  match a, b with
  | [], _ => true
  | _ :: _, [] => false
  | x :: a', y :: b' => N.ltb x y || (N.eqb x y && str_leb a' b')
  end.

Fixpoint insert_sorted (x : str) (l : list str) : list str :=
  match l with
  | [] => [x]
  | y :: l' => if str_leb x y then x :: l else y :: insert_sorted x l'
  end.

(** [sorted(l)] for a list of strings. *)
Fixpoint sorted (l : list str) : list str :=
  match l with
  | [] => []
  | x :: l' => insert_sorted x (sorted l')
  end.

(** [str.lower] on ASCII text: the letters A-Z go to a-z.  The general
    [str.lower] is a parameter of the viewer below. *)
Definition lower_ascii (s : str) : str :=
  map (fun c => if (65 <=? c)%N && (c <=? 90)%N then (c + 32)%N else c) s.

(** ** Library: the UTF-8 codec and [str.splitlines]

    [raw.decode("utf-8", errors=...)].  The decoder reads one byte at a
    time; [Pending need cp lo hi] means that the next byte of the
    sequence must lie in [lo..hi], that [need] further bytes follow it,
    and that [cp] holds the bits read so far.  An ill-formed sequence ends at the first
    byte that cannot continue it: under [Strict] it raises
    UnicodeDecodeError, under [Replace] it yields one U+FFFD and decoding
    resumes at that byte. *)

Inductive errors_policy : Type := Strict | Replace.

Inductive dstate : Type :=
| Idle
| Pending (need : nat) (cp lo hi : N).

Inductive dstart : Type :=
| Emit (c : N)
| Need (st : dstate)
| Bad.

Definition between (lo hi b : N) : bool := ((lo <=? b) && (b <=? hi))%N.

Definition lead (b : N) : dstart :=
  if (b <? 128)%N then Emit b
  else if between 194 223 b then Need (Pending 0 (b - 192) 128 191)
  else if (b =? 224)%N then Need (Pending 1 (b - 224) 160 191)
  else if (b =? 237)%N then Need (Pending 1 (b - 224) 128 159)
  else if between 225 239 b then Need (Pending 1 (b - 224) 128 191)
  else if (b =? 240)%N then Need (Pending 2 (b - 240) 144 191)
  else if (b =? 244)%N then Need (Pending 2 (b - 240) 128 143)
  else if between 241 243 b then Need (Pending 2 (b - 240) 128 191)
  else Bad.

Definition replacement_char : N := 65533.

Definition cons_res (c : N) (r : res str) : res str :=
  s <- r ;; Ok (c :: s).

Fixpoint utf8_go (errors : errors_policy) (st : dstate) (l : list N)
  : res str :=
  let bad (k : res str) : res str :=
    match errors with
    | Strict => Raise UnicodeDecodeError
    | Replace => cons_res replacement_char k
    end in
  match l with
  | [] =>
      match st with
      | Idle => Ok []
      | Pending _ _ _ _ => bad (Ok [])
      end
  | b :: r =>
      let fresh : res str :=
        match lead b with
        | Emit c => cons_res c (utf8_go errors Idle r)
        | Need st' => utf8_go errors st' r
        | Bad => bad (utf8_go errors Idle r)
        end in
      match st with
      | Idle => fresh
      | Pending need cp lo hi =>
          if between lo hi b then
            let cp' := (cp * 64 + (b - 128))%N in
            match need with
            | O => cons_res cp' (utf8_go errors Idle r)
            | S n => utf8_go errors (Pending n cp' 128 191) r
            end
          else bad fresh
      end
  end.

Definition utf8_decode (errors : errors_policy) (raw : bytes) : res str :=
  utf8_go errors Idle (map Byte.to_N raw).

(** The line boundaries of [str.splitlines]: LF, VT, FF, CR, FS, GS, RS,
    NEL, LS, PS. *)
Definition is_linebreak (c : N) : bool :=
  (between 10 13 c || between 28 30 c || (c =? 133) || (c =? 8232)
   || (c =? 8233))%N.

(** [cur] is the current line, last character first. *)
Fixpoint splitlines_from (cur : str) (s : str) : list str :=
  match s with
  | [] => match cur with [] => [] | _ :: _ => [rev cur] end
  | c :: r =>
      if (c =? 13)%N then
        match r with
        | 10%N :: r' => rev cur :: splitlines_from [] r'
        | _ => rev cur :: splitlines_from [] r
        end
      else if is_linebreak c then rev cur :: splitlines_from [] r
      else splitlines_from (c :: cur) r
  end.

(** [s.splitlines()] *)
Definition splitlines (s : str) : list str := splitlines_from [] s.

(** ** The text loader *)

(** What the loader reads from: [open_rb p] is the outcome of
    [open(p, "rb")] followed by [f.read()]; [sys.stdin] is a text stream
    over [stdin_raw] whose [read()] decodes under the stream's own error
    handler [stdin_errors]. *)
Record Env : Type := mkEnv {
  open_rb : str -> res bytes;
  stdin_raw : bytes;
  stdin_errors : errors_policy
}.

Definition stdin_read (env : Env) : res str :=
  utf8_decode (stdin_errors env) (stdin_raw env).

(** The value of [data] in [read_text] for a path [p]. *)
Definition read_data (env : Env) (p : str) : res str :=
  if str_eqb p (lit "-") then stdin_read env
  else raw <- open_rb env p ;; utf8_decode Replace raw.

Definition read_text (env : Env) (path : option str) : res (list str) :=
  match path with
  | None => Raise ValueError
  | Some p =>
      data <- read_data env p ;;
      let lines := splitlines data in
      Ok (match lines with
          | [] => [[]]
          | _ :: _ => lines
          end)
  end.

(** ** The viewer *)

(** [ord(c)] *)
Definition ord (c : ascii) : Z := Z.of_N (N_of_ascii c).

(** Key codes of the curses library. *)
Definition KEY_DOWN : Z := 258.
Definition KEY_UP : Z := 259.
Definition KEY_LEFT : Z := 260.
Definition KEY_RIGHT : Z := 261.
Definition KEY_HOME : Z := 262.
Definition KEY_BACKSPACE : Z := 263.
Definition KEY_NPAGE : Z := 338.
Definition KEY_PPAGE : Z := 339.
Definition KEY_ENTER : Z := 343.
Definition KEY_END : Z := 360.

(** [ch in (k1, k2, ...)] *)
Definition is_in (ch : Z) (keys : list Z) : bool := existsb (Z.eqb ch) keys.

Record ViewerState : Type := mkViewerState {
  lines : list str;
  filename : str;
  total : Z;
  cur : Z;
  top : Z;
  hscroll : Z;
  show_linenums : bool;
  search_q : option str
}.

(** [ViewerState.__init__] *)
Definition ViewerState_init (lines : list str) (filename : str)
  : ViewerState :=
  {| lines := lines; filename := filename; total := len lines;
     cur := 0; top := 0; hscroll := 0;
     show_linenums := false; search_q := None |}.

Definition set_cur (st : ViewerState) (v : Z) : ViewerState :=
  {| lines := lines st; filename := filename st; total := total st;
     cur := v; top := top st; hscroll := hscroll st;
     show_linenums := show_linenums st; search_q := search_q st |}.

Definition set_top (st : ViewerState) (v : Z) : ViewerState :=
  {| lines := lines st; filename := filename st; total := total st;
     cur := cur st; top := v; hscroll := hscroll st;
     show_linenums := show_linenums st; search_q := search_q st |}.

Definition set_hscroll (st : ViewerState) (v : Z) : ViewerState :=
  {| lines := lines st; filename := filename st; total := total st;
     cur := cur st; top := top st; hscroll := v;
     show_linenums := show_linenums st; search_q := search_q st |}.

Definition set_show_linenums (st : ViewerState) (v : bool) : ViewerState :=
  {| lines := lines st; filename := filename st; total := total st;
     cur := cur st; top := top st; hscroll := hscroll st;
     show_linenums := v; search_q := search_q st |}.

Definition set_search_q (st : ViewerState) (v : option str) : ViewerState :=
  {| lines := lines st; filename := filename st; total := total st;
     cur := cur st; top := top st; hscroll := hscroll st;
     show_linenums := show_linenums st; search_q := v |}.

Definition clamp (n lo hi : Z) : Z := Z.max lo (Z.min hi n).

(** The outcome of one pass of the main loop: go round again with the
    new state, or [break]. *)
Inductive outcome : Type :=
| Continue (st : ViewerState)
| Break.

(** What the terminal hands to one pass of the main loop: the height
    from [getmaxyx], the key from [getch], and the bytes from [getstr]
    (read only by the search prompts). *)
Record Event : Type := mkEvent {
  ev_maxy : Z;
  ev_ch : Z;
  ev_typed : bytes
}.

Section Viewer.

(** [str.lower] *)
Variable lower : str -> str.

(** [for i in range(i, i + n)]: the body of [search_forward]. *)
Fixpoint scan_up (st : ViewerState) (query : str) (n : nat) (i : Z)
  : res Z :=
  match n with
  | O => Ok (-1)
  | S n' =>
      line <- getitem (lines st) i ;;
      if contains (lower query) (lower line) then Ok i
      else scan_up st query n' (i + 1)
  end.

(** [for i in range(i, i - n, -1)]: the body of [search_backward]. *)
Fixpoint scan_down (st : ViewerState) (query : str) (n : nat) (i : Z)
  : res Z :=
  match n with
  | O => Ok (-1)
  | S n' =>
      line <- getitem (lines st) i ;;
      if contains (lower query) (lower line) then Ok i
      else scan_down st query n' (i - 1)
  end.

(** [range(start_line, state.total)] has [max(0, total - start_line)]
    elements. *)
Definition search_forward (st : ViewerState) (query : str)
  (start_line : option Z) : res Z :=
  let start_line :=
    match start_line with
    | None => cur st + 1
    | Some s => s
    end in
  scan_up st query (Z.to_nat (total st - start_line)) start_line.

(** [range(start_line, -1, -1)] has [max(0, start_line + 1)] elements. *)
Definition search_backward (st : ViewerState) (query : str)
  (start_line : option Z) : res Z :=
  let start_line :=
    match start_line with
    | None => cur st - 1
    | Some s => s
    end in
  scan_down st query (Z.to_nat (start_line + 1)) start_line.

(** The top of the loop body of [run]: keep the current line visible. *)
Definition ensure_visible (maxy : Z) (st : ViewerState) : ViewerState :=
  if cur st <? top st then set_top st (cur st)
  else if cur st >=? top st + maxy - 1 then set_top st (cur st - maxy + 2)
  else st.

(** The key dispatch of [run], after [ch = stdscr.getch()]. *)
Definition on_key (maxy ch : Z) (typed : bytes) (st : ViewerState)
  : res outcome :=
  if is_in ch [ord "q"; ord "Q"; 27] then Ok Break
  else if is_in ch [KEY_UP; ord "k"] then
    Ok (Continue (set_cur st (clamp (cur st - 1) 0 (total st - 1))))
  else if is_in ch [KEY_DOWN; ord "j"] then
    Ok (Continue (set_cur st (clamp (cur st + 1) 0 (total st - 1))))
  else if is_in ch [KEY_LEFT; ord "h"] then
    Ok (Continue (set_hscroll st (clamp (hscroll st - 1) 0 1000)))
  else if is_in ch [KEY_RIGHT; ord "l"] then
    Ok (Continue (set_hscroll st (clamp (hscroll st + 1) 0 1000)))
  else if is_in ch [KEY_PPAGE; ord "b"] then
    Ok (Continue (set_cur st (clamp (cur st - (maxy - 2)) 0 (total st - 1))))
  else if is_in ch [KEY_NPAGE; ord " "] then
    Ok (Continue (set_cur st (clamp (cur st + (maxy - 2)) 0 (total st - 1))))
  else if is_in ch [KEY_HOME; ord "g"] then
    Ok (Continue (set_cur st 0))
  else if is_in ch [KEY_END; ord "G"] then
    Ok (Continue (set_cur st (total st - 1)))
  else if ch =? ord "n" then
    Ok (Continue (set_show_linenums st (negb (show_linenums st))))
  else if ch =? ord "/" then
    query <- utf8_decode Strict typed ;;
    match query with
    | [] => Ok (Continue st)
    | _ :: _ =>
        let st := set_search_q st (Some query) in
        result <- search_forward st query (Some (cur st)) ;;
        if negb (result =? -1) then Ok (Continue (set_cur st result))
        else Ok (Continue st)
    end
  else if ch =? ord "?" then
    query <- utf8_decode Strict typed ;;
    match query with
    | [] => Ok (Continue st)
    | _ :: _ =>
        let st := set_search_q st (Some query) in
        result <- search_backward st query (Some (cur st)) ;;
        if negb (result =? -1) then Ok (Continue (set_cur st result))
        else Ok (Continue st)
    end
  else
    match ch =? ord "F", search_q st with
    | true, Some (c :: q) =>
        result <- search_forward st (c :: q) (Some (cur st + 1)) ;;
        if negb (result =? -1) then Ok (Continue (set_cur st result))
        else Ok (Continue st)
    | _, _ => Ok (Continue st)
    end.

(** One pass of [while True] in [run]. *)
Definition run_iter (ev : Event) (st : ViewerState) : res outcome :=
  on_key (ev_maxy ev) (ev_ch ev) (ev_typed ev)
         (ensure_visible (ev_maxy ev) st).

(** The loop of [run] from state [st] over the events [evs]; the result
    is the state at the [break], or the state reached when [evs] is
    used up. *)
Fixpoint run_from (evs : list Event) (st : ViewerState) : res ViewerState :=
  match evs with
  | [] => Ok st
  | ev :: evs' =>
      o <- run_iter ev st ;;
      match o with
      | Continue st' => run_from evs' st'
      | Break => Ok (ensure_visible (ev_maxy ev) st)
      end
  end.

Definition run (evs : list Event) (lines : list str) (filename : str)
  : res ViewerState :=
  run_from evs (ViewerState_init lines filename).

End Viewer.

(** ** The directory browser *)

(** What the terminal and the filesystem hand to one pass of the loop
    of [browse_dir]: the height from [getmaxyx], the outcome of
    [os.listdir(path)], the answers of [os.path.isdir], and the key from
    [getch]. *)
Record BrowseEvent : Type := mkBrowseEvent {
  bev_maxy : Z;
  bev_listdir : res (list str);
  bev_isdir : str -> bool;
  bev_ch : Z
}.

(** The outcome of one pass: go round again with a path and an index, or
    return the chosen file. *)
Inductive browse_outcome : Type :=
| Browsing (path : str) (idx : Z)
| Selected (full : str).

(** One row drawn by the browser: its number, its text, and whether it
    is drawn in reverse video. *)
Record Row : Type := mkRow {
  row_y : Z;
  row_text : str;
  row_reverse : bool
}.

(** [except Exception] catches every exception but SystemExit. *)
Definition is_Exception (e : exn) : bool :=
  match e with
  | SystemExit _ => false
  | _ => true
  end.

(** [try: entries = [".."] + sorted(os.listdir(path))
    except Exception: entries = [".."]] *)
Definition list_entries (listing : res (list str)) : res (list str) :=
  match listing with
  | Ok names => Ok (lit ".." :: sorted names)
  | Raise e => if is_Exception e then Ok [lit ".."] else Raise e
  end.

Section Browser.

(** [os.path.abspath], [os.path.join], [os.path.dirname] *)
Variable abspath : str -> str.
Variable join : str -> str -> str.
Variable dirname : str -> str.

(** [for i, name in enumerate(entries[: maxy - 1])]: the rows drawn,
    numbered from [i]. *)
Fixpoint rows_from (isdir : str -> bool) (path : str) (idx : Z) (i : Z)
  (names : list str) : list Row :=
  match names with
  | [] => []
  | name :: names' =>
      let full := join path name in
      let mark := if isdir full then lit "/" else [] in
      mkRow i (name ++ mark) (i =? idx)
      :: rows_from isdir path idx (i + 1) names'
  end.

Definition browse_rows (ev : BrowseEvent) (path : str) (idx : Z)
  (entries : list str) : list Row :=
  rows_from (bev_isdir ev) path idx 0 (slice_to entries (bev_maxy ev - 1)).

(** One pass of [while True] in [browse_dir]. *)
Definition browse_iter (ev : BrowseEvent) (path : str) (idx : Z)
  : res browse_outcome :=
  entries <- list_entries (bev_listdir ev) ;;
  let ch := bev_ch ev in
  if is_in ch [ord "q"; 27] then Raise (SystemExit 0)
  else if is_in ch [KEY_UP; ord "k"] then
    Ok (Browsing path (clamp (idx - 1) 0 (len entries - 1)))
  else if is_in ch [KEY_DOWN; ord "j"] then
    Ok (Browsing path (clamp (idx + 1) 0 (len entries - 1)))
  else if is_in ch [KEY_ENTER; 10; 13] then
    sel <- getitem entries idx ;;
    let full := join path sel in
    if str_eqb sel (lit "..") then Ok (Browsing (dirname path) 0)
    else if bev_isdir ev full then Ok (Browsing full 0)
    else Ok (Selected full)
  else if is_in ch [KEY_BACKSPACE; 127; 8] then
    Ok (Browsing (dirname path) 0)
  else Ok (Browsing path idx).

(** The loop of [browse_dir] from [(path, idx)] over the events [evs];
    [Browsing] is the state reached when [evs] is used up. *)
Fixpoint browse_from (evs : list BrowseEvent) (path : str) (idx : Z)
  : res browse_outcome :=
  match evs with
  | [] => Ok (Browsing path idx)
  | ev :: evs' =>
      o <- browse_iter ev path idx ;;
      match o with
      | Browsing path' idx' => browse_from evs' path' idx'
      | Selected full => Ok (Selected full)
      end
  end.

Definition browse_dir (evs : list BrowseEvent) (start_path : str)
  : res browse_outcome :=
  browse_from evs (abspath start_path) 0.

End Browser.

(** ** Specification predicates *)

(** The state was built by [ViewerState_init]: [total] is the number of
    lines. *)
Definition wf (st : ViewerState) : Prop := total st = len (lines st).

Definition cur_in_range (st : ViewerState) : Prop :=
  0 <= cur st <= total st - 1.

Definition hscroll_in_range (st : ViewerState) : Prop :=
  0 <= hscroll st <= 1000.

(** The current line is on one of the [maxy - 1] rows of the viewport. *)
Definition cur_visible (maxy : Z) (st : ViewerState) : Prop :=
  top st <= cur st <= top st + (maxy - 1) - 1.

(** Line [j] of the buffer contains the query, case-insensitively. *)
Definition matches (lower : str -> str) (st : ViewerState) (query : str)
  (j : Z) : bool :=
  match nth_error (lines st) (Z.to_nat j) with
  | Some line => contains (lower query) (lower line)
  | None => false
  end.

(** The same buffer: only the cursor, the scroll offsets, the flag and
    the query may differ. *)
Definition same_buffer (st st' : ViewerState) : Prop :=
  lines st' = lines st /\ filename st' = filename st /\ total st' = total st.

(** A result that is a string or the decoding error. *)
Definition decode_result (r : res str) : Prop :=
  match r with
  | Ok _ => True
  | Raise e => e = UnicodeDecodeError
  end.

(** The three-line buffer of the search scenario. *)
Definition abg : list str := [lit "alpha"; lit "Beta"; lit "gamma"].

(** ** Drawing the viewer *)









Section Frames.

Variable lower : str -> str.


End Frames.

(** ** The program *)


Section Main.

Variable lower : str -> str.
Variable abspath : str -> str.
Variable join : str -> str -> str.
Variable dirname : str -> str.



End Main.

(** ** Further specification predicates *)


(** Every key that the dispatch of [run] tests for. *)
Definition bound_keys : list Z :=
  [ord "q"; ord "Q"; 27; KEY_UP; ord "k"; KEY_DOWN; ord "j";
   KEY_LEFT; ord "h"; KEY_RIGHT; ord "l"; KEY_PPAGE; ord "b";
   KEY_NPAGE; ord " "; KEY_HOME; ord "g"; KEY_END; ord "G";
   ord "n"; ord "/"; ord "?"; ord "F"].



(** A string without a line boundary. *)
Definition one_line (s : str) : Prop :=
  Forall (fun c => is_linebreak c = false) s.

(** * Properties *)

(** ** List access *)

Lemma getitem_nth {A : Type} (l : list A) (i : Z) :
  0 <= i < len l ->
  exists a, getitem l i = Ok a /\ nth_error l (Z.to_nat i) = Some a.
Proof.
  intros [H0 H1]. unfold getitem.
  destruct (Z.ltb_spec i 0) as [Hneg | _]; [lia |].
  destruct (Z.ltb_spec i 0) as [Hneg | _]; [lia |].
  destruct (nth_error l (Z.to_nat i)) as [a |] eqn:E.
  - exists a. split; reflexivity.
  - apply nth_error_None in E. unfold len in H1. lia.
Qed.

Lemma clamp_bounds (n lo hi : Z) : lo <= hi -> lo <= clamp n lo hi <= hi.
Proof. unfold clamp. lia. Qed.

(** ** The viewport rule *)

(** C1. After the recomputation at the top of the main loop, for every
    terminal height of at least 2 rows, top <= current <= top +
    viewport height - 1 with viewport height = rows - 1; the rule moves
    only the top index.  It holds whatever the current index is. *)
Theorem ensure_visible_restores (maxy : Z) (st : ViewerState) :
  2 <= maxy ->
  cur_visible maxy (ensure_visible maxy st) /\
  cur (ensure_visible maxy st) = cur st.
Proof.
  intros Hrows. unfold cur_visible, ensure_visible.
  destruct (Z.ltb_spec (cur st) (top st)) as [Hlt | Hge]; simpl.
  - lia.
  - destruct (Z.geb_spec (cur st) (top st + maxy - 1)) as [Hbelow | Hin];
      simpl; lia.
Qed.

Lemma ensure_visible_restores_witness :
  cur_visible 2 (ensure_visible 2 (set_cur (ViewerState_init abg []) 2)) /\
  cur (ensure_visible 2 (set_cur (ViewerState_init abg []) 2)) = 2.
Proof. apply ensure_visible_restores. lia. Defined.

(** ** Search *)

Section SearchFacts.

Variable lower : str -> str.
Variable st : ViewerState.
Variable query : str.

Lemma matches_at (i : Z) (line : str) :
  nth_error (lines st) (Z.to_nat i) = Some line ->
  matches lower st query i = contains (lower query) (lower line).
Proof. intros H. unfold matches. rewrite H. reflexivity. Qed.

(** The upward scan over [n] lines that all exist returns the first
    matching index, or -1 when none of them matches. *)
Lemma scan_up_spec (n : nat) :
  forall i : Z,
  0 <= i -> i + Z.of_nat n <= len (lines st) ->
  exists r,
    scan_up lower st query n i = Ok r /\
    ((r = -1 /\
      forall j, i <= j < i + Z.of_nat n -> matches lower st query j = false)
     \/
     (i <= r < i + Z.of_nat n /\ matches lower st query r = true /\
      forall j, i <= j < r -> matches lower st query j = false)).
Proof.
  induction n as [| n' IH]; intros i Hi Hlen; simpl scan_up.
  - exists (-1). split; [reflexivity |]. left. split; [reflexivity |].
    intros j Hj. lia.
  - destruct (getitem_nth (lines st) i) as [line [Hget Hnth]]; [lia |].
    rewrite Hget. simpl bind.
    pose proof (matches_at i line Hnth) as Hm.
    destruct (contains (lower query) (lower line)) eqn:Htest.
    + exists i. split; [reflexivity |]. right.
      split; [lia | split; [exact Hm | intros j Hj; lia]].
    + destruct (IH (i + 1)) as [r [Hr Hcases]]; [lia | lia |].
      exists r. split; [exact Hr |].
      destruct Hcases as [[Hnf Hnone] | [Hrange [Hhit Hbefore]]].
      * left. split; [exact Hnf |]. intros j Hj.
        destruct (Z.eq_dec j i) as [-> | Hne]; [exact Hm |].
        apply Hnone. lia.
      * right. split; [lia | split; [exact Hhit |]]. intros j Hj.
        destruct (Z.eq_dec j i) as [-> | Hne]; [exact Hm |].
        apply Hbefore. lia.
Qed.

(** The downward scan, likewise, returns the last matching index at or
    below [i]. *)
Lemma scan_down_spec (n : nat) :
  forall i : Z,
  Z.of_nat n <= i + 1 -> i < len (lines st) ->
  exists r,
    scan_down lower st query n i = Ok r /\
    ((r = -1 /\
      forall j, i - Z.of_nat n < j <= i -> matches lower st query j = false)
     \/
     (i - Z.of_nat n < r <= i /\ matches lower st query r = true /\
      forall j, r < j <= i -> matches lower st query j = false)).
Proof.
  induction n as [| n' IH]; intros i Hi Hlen; simpl scan_down.
  - exists (-1). split; [reflexivity |]. left. split; [reflexivity |].
    intros j Hj. lia.
  - destruct (getitem_nth (lines st) i) as [line [Hget Hnth]]; [lia |].
    rewrite Hget. simpl bind.
    pose proof (matches_at i line Hnth) as Hm.
    destruct (contains (lower query) (lower line)) eqn:Htest.
    + exists i. split; [reflexivity |]. right.
      split; [lia | split; [exact Hm | intros j Hj; lia]].
    + destruct (IH (i - 1)) as [r [Hr Hcases]]; [lia | lia |].
      exists r. split; [exact Hr |].
      destruct Hcases as [[Hnf Hnone] | [Hrange [Hhit Hafter]]].
      * left. split; [exact Hnf |]. intros j Hj.
        destruct (Z.eq_dec j i) as [-> | Hne]; [exact Hm |].
        apply Hnone. lia.
      * right. split; [lia | split; [exact Hhit |]]. intros j Hj.
        destruct (Z.eq_dec j i) as [-> | Hne]; [exact Hm |].
        apply Hafter. lia.
Qed.

Hypothesis Hwf : wf st.

Lemma search_forward_spec (start : Z) :
  0 <= start ->
  exists r,
    search_forward lower st query (Some start) = Ok r /\
    ((r = -1 /\
      forall j, start <= j < total st -> matches lower st query j = false)
     \/
     (start <= r < total st /\ matches lower st query r = true /\
      forall j, start <= j < r -> matches lower st query j = false)).
Proof.
  intros Hstart. unfold search_forward. red in Hwf.
  destruct (Z.le_gt_cases start (total st)) as [Hle | Hgt].
  - destruct (scan_up_spec (Z.to_nat (total st - start)) start)
      as [r [Hr Hcases]]; [lia | lia |].
    exists r. split; [exact Hr |].
    rewrite Z2Nat.id in Hcases by lia.
    replace (start + (total st - start)) with (total st) in Hcases by lia.
    exact Hcases.
  - replace (Z.to_nat (total st - start)) with O by lia. simpl.
    exists (-1). split; [reflexivity |]. left. split; [reflexivity |]. lia.
Qed.

Lemma search_backward_spec (start : Z) :
  -1 <= start < total st ->
  exists r,
    search_backward lower st query (Some start) = Ok r /\
    ((r = -1 /\
      forall j, 0 <= j <= start -> matches lower st query j = false)
     \/
     (0 <= r <= start /\ matches lower st query r = true /\
      forall j, r < j <= start -> matches lower st query j = false)).
Proof.
  intros Hstart. unfold search_backward. red in Hwf.
  destruct (scan_down_spec (Z.to_nat (start + 1)) start)
    as [r [Hr Hcases]]; [lia | lia |].
  exists r. split; [exact Hr |].
  rewrite Z2Nat.id in Hcases by lia.
  destruct Hcases as [[Hnf Hnone] | [Hrange [Hhit Hafter]]].
  - left. split; [exact Hnf |]. intros j Hj. apply Hnone. lia.
  - right. split; [lia | split; [exact Hhit | exact Hafter]].
Qed.

End SearchFacts.

(** C3. Forward search from a start index inside the buffer returns the
    smallest index at or after the start whose line contains the query
    case-insensitively, and returns -1 exactly when no line from the
    start to the end of the buffer does. *)
Theorem search_forward_first_match (lower : str -> str) (st : ViewerState)
  (query : str) (start : Z) :
  wf st ->
  0 <= start <= total st - 1 ->
  exists r,
    search_forward lower st query (Some start) = Ok r /\
    (r = -1 <->
     forall j, start <= j < total st -> matches lower st query j = false) /\
    (r <> -1 ->
     start <= r < total st /\ matches lower st query r = true /\
     forall j, start <= j < r -> matches lower st query j = false).
Proof.
  intros Hwf Hstart.
  destruct (search_forward_spec lower st query Hwf start) as [r [Hr Hcases]];
    [lia |].
  exists r. split; [exact Hr |].
  destruct Hcases as [[Hnf Hnone] | [Hrange [Hhit Hbefore]]].
  - split; [split; [intros _; exact Hnone | intros _; exact Hnf] |].
    intros Hfound. contradiction.
  - split.
    + split.
      * intros Hnf. lia.
      * intros Hnone. rewrite (Hnone r Hrange) in Hhit. discriminate.
    + intros _. split; [exact Hrange | split; [exact Hhit | exact Hbefore]].
Qed.

Lemma search_forward_first_match_witness :
  exists r,
    search_forward lower_ascii (ViewerState_init abg []) (lit "eta") (Some 0)
    = Ok r /\
    (r = -1 <->
     forall j, 0 <= j < total (ViewerState_init abg []) ->
               matches lower_ascii (ViewerState_init abg []) (lit "eta") j
               = false) /\
    (r <> -1 ->
     0 <= r < total (ViewerState_init abg []) /\
     matches lower_ascii (ViewerState_init abg []) (lit "eta") r = true /\
     forall j, 0 <= j < r ->
               matches lower_ascii (ViewerState_init abg []) (lit "eta") j
               = false).
Proof.
  apply search_forward_first_match.
  - reflexivity.
  - simpl. lia.
Defined.

(** C4. When forward search from a line i inside the buffer finds a
    match at line j, then j >= i and backward search from j finds a
    match at a line <= j: it returns j itself, so it does not signal
    "not found". *)
Theorem search_backward_after_forward (lower : str -> str)
  (st : ViewerState) (query : str) (i j : Z) :
  wf st ->
  0 <= i <= total st - 1 ->
  search_forward lower st query (Some i) = Ok j ->
  j <> -1 ->
  i <= j /\
  exists r,
    search_backward lower st query (Some j) = Ok r /\
    r <> -1 /\ r <= j /\ matches lower st query r = true /\ r = j.
Proof.
  intros Hwf Hi Hfwd Hfound.
  destruct (search_forward_spec lower st query Hwf i) as [r [Hr Hcases]];
    [lia |].
  rewrite Hfwd in Hr. injection Hr as <-.
  destruct Hcases as [[Hnf _] | [Hrange [Hhit _]]]; [contradiction |].
  split; [lia |].
  destruct (search_backward_spec lower st query Hwf j) as [r [Hr Hcases]];
    [lia |].
  exists r. split; [exact Hr |].
  destruct Hcases as [[_ Hnone] | [Hr_range [Hr_hit Hafter]]].
  - rewrite (Hnone j) in Hhit by lia. discriminate.
  - destruct (Z.eq_dec r j) as [-> | Hne].
    + repeat split; try lia. exact Hhit.
    + rewrite (Hafter j) in Hhit by lia. discriminate.
Qed.

Lemma search_backward_after_forward_witness :
  0 <= 1 /\
  exists r,
    search_backward lower_ascii (ViewerState_init abg []) (lit "eta") (Some 1)
    = Ok r /\
    r <> -1 /\ r <= 1 /\
    matches lower_ascii (ViewerState_init abg []) (lit "eta") r = true /\
    r = 1.
Proof.
  apply (search_backward_after_forward lower_ascii (ViewerState_init abg [])
           (lit "eta") 0 1).
  - reflexivity.
  - simpl. lia.
  - reflexivity.
  - discriminate.
Defined.

(** ** The codec *)

Lemma cons_res_decode_result (c : N) (r : res str) :
  decode_result r -> decode_result (cons_res c r).
Proof. destruct r as [s | e]; simpl; auto. Qed.

Lemma utf8_go_decode_result (errors : errors_policy) (l : list N) :
  forall st, decode_result (utf8_go errors st l).
Proof.
  induction l as [| b r IH]; intros st; simpl.
  - destruct st; destruct errors; simpl; auto.
  - assert (Hbad : forall k, decode_result k ->
              decode_result match errors with
                            | Strict => Raise UnicodeDecodeError
                            | Replace => cons_res replacement_char k
                            end).
    { intros k Hk. destruct errors; simpl; [reflexivity |].
      apply cons_res_decode_result. exact Hk. }
    assert (Hfresh : decode_result
              match lead b with
              | Emit c => cons_res c (utf8_go errors Idle r)
              | Need st' => utf8_go errors st' r
              | Bad => match errors with
                       | Strict => Raise UnicodeDecodeError
                       | Replace =>
                           cons_res replacement_char (utf8_go errors Idle r)
                       end
              end).
    { destruct (lead b) as [c | st' |].
      - apply cons_res_decode_result, IH.
      - apply IH.
      - apply Hbad, IH. }
    destruct st as [| need cp lo hi]; [exact Hfresh |].
    destruct (between lo hi b).
    + destruct need as [| n]; [apply cons_res_decode_result |]; apply IH.
    + apply Hbad, Hfresh.
Qed.

(** Decoding raises nothing but UnicodeDecodeError. *)
Lemma utf8_decode_raises (errors : errors_policy) (raw : bytes) (e : exn) :
  utf8_decode errors raw = Raise e -> e = UnicodeDecodeError.
Proof.
  intros H. pose proof (utf8_go_decode_result errors (map Byte.to_N raw) Idle)
    as Hres.
  unfold utf8_decode in H. rewrite H in Hres. exact Hres.
Qed.

Lemma cons_res_ok (c : N) (r : res str) :
  (exists s, r = Ok s) -> exists s, cons_res c r = Ok s.
Proof. intros [s ->]. exists (c :: s). reflexivity. Qed.

Lemma utf8_go_replace_total (l : list N) :
  forall st, exists s, utf8_go Replace st l = Ok s.
Proof.
  induction l as [| b r IH]; intros st; simpl.
  - destruct st; simpl; eexists; reflexivity.
  - assert (Hfresh : exists s,
              match lead b with
              | Emit c => cons_res c (utf8_go Replace Idle r)
              | Need st' => utf8_go Replace st' r
              | Bad => cons_res replacement_char (utf8_go Replace Idle r)
              end = Ok s).
    { destruct (lead b) as [c | st' |];
        [apply cons_res_ok | | apply cons_res_ok]; apply IH. }
    destruct st as [| need cp lo hi]; [exact Hfresh |].
    destruct (between lo hi b).
    + destruct need as [| n]; [apply cons_res_ok |]; apply IH.
    + apply cons_res_ok, Hfresh.
Qed.

(** Under the "replace" policy decoding never fails. *)
Lemma utf8_decode_replace_total (raw : bytes) :
  exists s, utf8_decode Replace raw = Ok s.
Proof. apply utf8_go_replace_total. Qed.

(** ** Key handling *)

Section KeyFacts.

Variable lower : str -> str.

Lemma on_key_slash (maxy : Z) (typed : bytes) (st : ViewerState) :
  on_key lower maxy (ord "/") typed st =
  (query <- utf8_decode Strict typed ;;
   match query with
   | [] => Ok (Continue st)
   | _ :: _ =>
       let st := set_search_q st (Some query) in
       result <- search_forward lower st query (Some (cur st)) ;;
       if negb (result =? -1) then Ok (Continue (set_cur st result))
       else Ok (Continue st)
   end).
Proof. reflexivity. Qed.

Lemma on_key_question (maxy : Z) (typed : bytes) (st : ViewerState) :
  on_key lower maxy (ord "?") typed st =
  (query <- utf8_decode Strict typed ;;
   match query with
   | [] => Ok (Continue st)
   | _ :: _ =>
       let st := set_search_q st (Some query) in
       result <- search_backward lower st query (Some (cur st)) ;;
       if negb (result =? -1) then Ok (Continue (set_cur st result))
       else Ok (Continue st)
   end).
Proof. reflexivity. Qed.

Lemma on_key_F (maxy : Z) (typed : bytes) (st : ViewerState) :
  on_key lower maxy (ord "F") typed st =
  match search_q st with
  | Some (c :: q) =>
      result <- search_forward lower st (c :: q) (Some (cur st + 1)) ;;
      if negb (result =? -1) then Ok (Continue (set_cur st result))
      else Ok (Continue st)
  | _ => Ok (Continue st)
  end.
Proof. reflexivity. Qed.

(** The searches read only the buffer. *)
Lemma scan_up_set_search_q st v query (n : nat) :
  forall i,
  scan_up lower (set_search_q st v) query n i = scan_up lower st query n i.
Proof.
  induction n as [| n' IH]; intros i; simpl; [reflexivity |].
  destruct (getitem (lines st) i) as [line | e]; simpl; [| reflexivity].
  rewrite IH. reflexivity.
Qed.

Lemma scan_down_set_search_q st v query (n : nat) :
  forall i,
  scan_down lower (set_search_q st v) query n i = scan_down lower st query n i.
Proof.
  induction n as [| n' IH]; intros i; simpl; [reflexivity |].
  destruct (getitem (lines st) i) as [line | e]; simpl; [| reflexivity].
  rewrite IH. reflexivity.
Qed.

Lemma search_forward_set_search_q st v query start :
  search_forward lower (set_search_q st v) query (Some start) =
  search_forward lower st query (Some start).
Proof. apply scan_up_set_search_q. Qed.

Lemma search_backward_set_search_q st v query start :
  search_backward lower (set_search_q st v) query (Some start) =
  search_backward lower st query (Some start).
Proof. apply scan_down_set_search_q. Qed.

End KeyFacts.

(** Unfold the range predicates and close the goal by arithmetic. *)
Ltac ranges :=
  unfold same_buffer, cur_in_range, hscroll_in_range, wf in *; simpl;
  repeat split; try lia; try (apply clamp_bounds; lia).

(** After a search that returned [r], the jump of the key handlers. *)
Ltac jump r Hcases :=
  simpl bind;
  destruct Hcases as [[? _] | [? _]];
  destruct (Z.eqb_spec r (-1)); simpl; ranges.

(** C2. From a state whose current index is in [0, total-1] and whose
    horizontal offset is in [0, 1000], every key leaves both in their
    ranges, over the same buffer.  The quit keys leave the loop, and the
    key dispatch fails only where a search prompt decodes bytes that are
    not UTF-8, which raises before any field is assigned. *)
Theorem key_keeps_ranges (lower : str -> str) (maxy ch : Z) (typed : bytes)
  (st : ViewerState) :
  wf st -> cur_in_range st -> hscroll_in_range st ->
  match on_key lower maxy ch typed st with
  | Ok (Continue st') =>
      same_buffer st st' /\ cur_in_range st' /\ hscroll_in_range st'
  | Ok Break => is_in ch [ord "q"; ord "Q"; 27] = true
  | Raise e =>
      e = UnicodeDecodeError /\
      utf8_decode Strict typed = Raise UnicodeDecodeError /\
      (ch = ord "/" \/ ch = ord "?")
  end.
Proof.
  intros Hwf Hcur Hhs.
  assert (Htotal : 1 <= total st) by (red in Hcur; lia).
  assert (Hc0 : 0 <= cur st) by (red in Hcur; lia).
  unfold on_key.
  destruct (is_in ch [ord "q"; ord "Q"; 27]); [reflexivity |].
  repeat match goal with
  | |- context [if is_in ch ?keys then _ else _] =>
      destruct (is_in ch keys); [ranges |]
  end.
  destruct (Z.eqb_spec ch (ord "n")) as [_ | _]; [ranges |].
  destruct (Z.eqb_spec ch (ord "/")) as [Hslash | _].
  { destruct (utf8_decode Strict typed) as [query | e] eqn:Hdec; simpl bind.
    - destruct query as [| c q]; [ranges |].
      cbv zeta. rewrite search_forward_set_search_q.
      destruct (search_forward_spec lower st (c :: q) Hwf (cur st))
        as [r [Hr Hcases]]; [lia |].
      rewrite Hr. jump r Hcases.
    - apply utf8_decode_raises in Hdec as He. subst e. auto. }
  destruct (Z.eqb_spec ch (ord "?")) as [Hquestion | _].
  { destruct (utf8_decode Strict typed) as [query | e] eqn:Hdec; simpl bind.
    - destruct query as [| c q]; [ranges |].
      cbv zeta. rewrite search_backward_set_search_q.
      destruct (search_backward_spec lower st (c :: q) Hwf (cur st))
        as [r [Hr Hcases]]; [red in Hcur; lia |].
      rewrite Hr. jump r Hcases.
    - apply utf8_decode_raises in Hdec as He. subst e. auto. }
  destruct (ch =? ord "F"); [| ranges].
  destruct (search_q st) as [[| c q] |]; [ranges | | ranges].
  destruct (search_forward_spec lower st (c :: q) Hwf (cur st + 1))
    as [r [Hr Hcases]]; [lia |].
  rewrite Hr. jump r Hcases.
Qed.

Lemma key_keeps_ranges_witness :
  match on_key lower_ascii 24 (ord "/") (list_byte_of_string "eta")
          (ViewerState_init abg []) with
  | Ok (Continue st') =>
      same_buffer (ViewerState_init abg []) st' /\
      cur_in_range st' /\ hscroll_in_range st'
  | Ok Break => is_in (ord "/") [ord "q"; ord "Q"; 27] = true
  | Raise e =>
      e = UnicodeDecodeError /\
      utf8_decode Strict (list_byte_of_string "eta")
      = Raise UnicodeDecodeError /\
      (ord "/" = ord "/" \/ ord "/" = ord "?")
  end.
Proof.
  apply (key_keeps_ranges lower_ascii 24 (ord "/")
           (list_byte_of_string "eta") (ViewerState_init abg [])).
  - reflexivity.
  - unfold cur_in_range. simpl. lia.
  - unfold hscroll_in_range. simpl. lia.
Defined.

(** C7. At the '/' prompt a non-empty query is stored as the last query
    and searched forward from the current index inclusive: on a match
    the current index becomes the matched line, otherwise it stays.  On
    the buffer alpha, Beta, gamma with current index 0, entering eta
    moves the current index to 1, and a following F leaves it at 1. *)
Theorem slash_search_jumps :
  (forall (lower : str -> str) (maxy : Z) (typed : bytes)
          (st : ViewerState) (query : str),
      wf st -> cur_in_range st ->
      utf8_decode Strict typed = Ok query -> query <> [] ->
      exists r,
        search_forward lower st query (Some (cur st)) = Ok r /\
        on_key lower maxy (ord "/") typed st =
        Ok (Continue (if r =? -1 then set_search_q st (Some query)
                      else set_cur (set_search_q st (Some query)) r)))
  /\
  (exists st1,
      run lower_ascii [mkEvent 24 (ord "/") (list_byte_of_string "eta")]
          abg (lit "f.txt") = Ok st1 /\
      cur st1 = 1 /\ search_q st1 = Some (lit "eta"))
  /\
  (exists st2,
      run lower_ascii [mkEvent 24 (ord "/") (list_byte_of_string "eta");
                       mkEvent 24 (ord "F") []]
          abg (lit "f.txt") = Ok st2 /\
      cur st2 = 1).
Proof.
  split; [| split].
  - intros lower maxy typed st query Hwf Hcur Hdec Hne.
    destruct (search_forward_spec lower st query Hwf (cur st))
      as [r [Hr _]]; [red in Hcur; lia |].
    exists r. split; [exact Hr |].
    rewrite on_key_slash, Hdec. simpl bind.
    destruct query as [| c q]; [contradiction |].
    cbv zeta. rewrite search_forward_set_search_q, Hr. simpl bind.
    destruct (r =? -1); reflexivity.
  - eexists. split; [reflexivity |]. split; reflexivity.
  - eexists. split; reflexivity.
Qed.

Lemma slash_search_jumps_witness :
  exists r,
    search_forward lower_ascii (ViewerState_init abg []) (lit "MM")
                   (Some (cur (ViewerState_init abg []))) = Ok r /\
    on_key lower_ascii 24 (ord "/") (list_byte_of_string "MM")
           (ViewerState_init abg []) =
    Ok (Continue
          (if r =? -1
           then set_search_q (ViewerState_init abg []) (Some (lit "MM"))
           else set_cur (set_search_q (ViewerState_init abg [])
                                      (Some (lit "MM"))) r)).
Proof.
  apply (proj1 slash_search_jumps lower_ascii 24 (list_byte_of_string "MM")
           (ViewerState_init abg []) (lit "MM")).
  - reflexivity.
  - unfold cur_in_range. simpl. lia.
  - reflexivity.
  - discriminate.
Defined.

(** ** The stored query *)

Lemma ensure_visible_search_q (maxy : Z) (st : ViewerState) :
  search_q (ensure_visible maxy st) = search_q st.
Proof.
  unfold ensure_visible.
  destruct (cur st <? top st); [reflexivity |].
  destruct (cur st >=? top st + maxy - 1); reflexivity.
Qed.

(** Close a goal about the state carried by a returned [Continue]. *)
Ltac returned H :=
  simpl in H; try discriminate H;
  injection H as <-; simpl; try assumption; try congruence.

Lemma on_key_keeps_query_nonempty (lower : str -> str) (maxy ch : Z)
  (typed : bytes) (st st' : ViewerState) :
  search_q st <> Some [] ->
  on_key lower maxy ch typed st = Ok (Continue st') ->
  search_q st' <> Some [].
Proof.
  intros Hq H. unfold on_key in H.
  destruct (is_in ch [ord "q"; ord "Q"; 27]); [discriminate H |].
  repeat match type of H with
  | context [if is_in ch ?keys then _ else _] =>
      destruct (is_in ch keys); [returned H |]
  end.
  destruct (ch =? ord "n"); [returned H |].
  destruct (ch =? ord "/").
  { destruct (utf8_decode Strict typed) as [[| c q] | e]; [returned H | | returned H].
    simpl in H.
    destruct (search_forward lower _ (c :: q) _) as [r | e]; [| returned H].
    simpl in H. destruct (negb (r =? -1)); returned H. }
  destruct (ch =? ord "?").
  { destruct (utf8_decode Strict typed) as [[| c q] | e]; [returned H | | returned H].
    simpl in H.
    destruct (search_backward lower _ (c :: q) _) as [r | e]; [| returned H].
    simpl in H. destruct (negb (r =? -1)); returned H. }
  destruct (ch =? ord "F"); [| returned H].
  destruct (search_q st) as [[| c q] |] eqn:Hsq; [returned H | | returned H].
  destruct (search_forward lower st (c :: q) _) as [r | e]; [| returned H].
  simpl in H. destruct (negb (r =? -1)); returned H.
Qed.

Lemma run_from_keeps_query_nonempty (lower : str -> str)
  (evs : list Event) :
  forall st st',
  search_q st <> Some [] ->
  run_from lower evs st = Ok st' ->
  search_q st' <> Some [].
Proof.
  induction evs as [| ev evs' IH]; intros st st' Hq H; simpl in H.
  - injection H as <-. exact Hq.
  - destruct (run_iter lower ev st) as [[st1 |] | e] eqn:Hiter;
      simpl in H; [| | discriminate H].
    + apply (IH st1 st'); [| exact H].
      apply (on_key_keeps_query_nonempty lower (ev_maxy ev) (ev_ch ev)
               (ev_typed ev) (ensure_visible (ev_maxy ev) st));
        [rewrite ensure_visible_search_q; exact Hq | exact Hiter].
    + injection H as <-. rewrite ensure_visible_search_q. exact Hq.
Qed.

(** C9. When the query entered at the '/' or '?' prompt is empty, the
    key leaves the whole viewer state as it was; hence in every state
    that the main loop reaches, the stored query is absent or
    non-empty. *)
Theorem empty_query_changes_nothing :
  (forall (lower : str -> str) (maxy ch : Z) (typed : bytes)
          (st : ViewerState),
      ch = ord "/" \/ ch = ord "?" ->
      utf8_decode Strict typed = Ok [] ->
      on_key lower maxy ch typed st = Ok (Continue st))
  /\
  (forall (lower : str -> str) (evs : list Event) (lines : list str)
          (filename : str) (st : ViewerState),
      run lower evs lines filename = Ok st ->
      search_q st <> Some []).
Proof.
  split.
  - intros lower maxy ch typed st [-> | ->] Hdec.
    + rewrite on_key_slash, Hdec. reflexivity.
    + rewrite on_key_question, Hdec. reflexivity.
  - intros lower evs lines filename st H.
    apply (run_from_keeps_query_nonempty lower evs
             (ViewerState_init lines filename) st); [discriminate | exact H].
Qed.

Lemma empty_query_changes_nothing_witness :
  on_key lower_ascii 24 (ord "?") []
         (set_search_q (set_cur (ViewerState_init abg []) 2)
                       (Some (lit "eta")))
  = Ok (Continue (set_search_q (set_cur (ViewerState_init abg []) 2)
                               (Some (lit "eta"))))
  /\
  search_q (set_cur (set_search_q (ViewerState_init abg (lit "f.txt"))
                                  (Some (lit "eta"))) 1)
  <> Some [].
Proof.
  split.
  - apply (proj1 empty_query_changes_nothing); [right |]; reflexivity.
  - apply (proj2 empty_query_changes_nothing lower_ascii
             [mkEvent 24 (ord "/") (list_byte_of_string "eta")]
             abg (lit "f.txt")).
    reflexivity.
Defined.

(** C10. With a stored query, the F key searches forward from the line
    after the current one: when that search finds a match, the current
    index becomes the match, which is strictly greater than the old
    current index and at most total-1; when it finds none, the state is
    left as it was. *)
Theorem find_next_moves_forward (lower : str -> str) (maxy : Z)
  (typed : bytes) (st : ViewerState) (query : str) :
  wf st -> cur_in_range st ->
  search_q st = Some query -> query <> [] ->
  exists r,
    search_forward lower st query (Some (cur st + 1)) = Ok r /\
    ((r = -1 /\ on_key lower maxy (ord "F") typed st = Ok (Continue st))
     \/
     (r <> -1 /\ cur st < r <= total st - 1 /\
      on_key lower maxy (ord "F") typed st = Ok (Continue (set_cur st r)))).
Proof.
  intros Hwf Hcur Hsq Hne.
  destruct (search_forward_spec lower st query Hwf (cur st + 1))
    as [r [Hr Hcases]]; [red in Hcur; lia |].
  exists r. split; [exact Hr |].
  rewrite on_key_F, Hsq.
  destruct query as [| c q]; [contradiction |].
  rewrite Hr. simpl bind.
  destruct Hcases as [[-> _] | [Hrange _]].
  - left. split; reflexivity.
  - right. red in Hcur.
    destruct (Z.eqb_spec r (-1)) as [-> | Hfound]; [lia |].
    split; [exact Hfound |]. split; [lia | reflexivity].
Qed.

Lemma find_next_moves_forward_witness :
  exists r,
    search_forward lower_ascii
      (set_search_q (ViewerState_init abg []) (Some (lit "A")))
      (lit "A")
      (Some (cur (set_search_q (ViewerState_init abg []) (Some (lit "A")))
             + 1)) = Ok r /\
    ((r = -1 /\
      on_key lower_ascii 24 (ord "F") []
        (set_search_q (ViewerState_init abg []) (Some (lit "A")))
      = Ok (Continue (set_search_q (ViewerState_init abg [])
                                   (Some (lit "A")))))
     \/
     (r <> -1 /\
      cur (set_search_q (ViewerState_init abg []) (Some (lit "A"))) < r
      <= total (set_search_q (ViewerState_init abg []) (Some (lit "A"))) - 1
      /\
      on_key lower_ascii 24 (ord "F") []
        (set_search_q (ViewerState_init abg []) (Some (lit "A")))
      = Ok (Continue
              (set_cur (set_search_q (ViewerState_init abg [])
                                     (Some (lit "A"))) r)))).
Proof.
  apply find_next_moves_forward.
  - reflexivity.
  - unfold cur_in_range. simpl. lia.
  - reflexivity.
  - discriminate.
Defined.

(** ** The text loader *)

(** A path other than "-" is opened and read as bytes, and whatever was
    read is decoded and split: the loader fails exactly as the read
    fails. *)
Lemma read_text_file (env : Env) (p : str) :
  str_eqb p (lit "-") = false ->
  match open_rb env p with
  | Ok raw => exists ls, read_text env (Some p) = Ok ls
  | Raise e => read_text env (Some p) = Raise e
  end.
Proof.
  intros Hp. unfold read_text, read_data. rewrite Hp.
  destruct (open_rb env p) as [raw | e]; simpl; [| reflexivity].
  destruct (utf8_decode_replace_total raw) as [data ->]. simpl.
  eexists. reflexivity.
Qed.

(** C6. Whatever the loader returns has at least one line; when the
    text that was read splits into no lines, the loader returns exactly
    one empty line; and the loader returns whenever the text was read. *)
Theorem read_text_never_empty :
  (forall (env : Env) (path : option str) (ls : list str),
      read_text env path = Ok ls -> (1 <= length ls)%nat)
  /\
  (forall (env : Env) (p : str) (data : str),
      read_data env p = Ok data -> splitlines data = [] ->
      read_text env (Some p) = Ok [[]])
  /\
  (forall (env : Env) (p : str) (data : str),
      read_data env p = Ok data ->
      exists ls, read_text env (Some p) = Ok ls).
Proof.
  split; [| split].
  - intros env [p |] ls H; simpl in H; [| discriminate H].
    destruct (read_data env p) as [data | e]; simpl in H; [| discriminate H].
    injection H as <-.
    destruct (splitlines data) as [| l ls']; simpl; lia.
  - intros env p data Hdata Hsplit. simpl. rewrite Hdata. simpl.
    rewrite Hsplit. reflexivity.
  - intros env p data Hdata. simpl. rewrite Hdata. simpl.
    eexists. reflexivity.
Qed.

Lemma read_text_never_empty_witness :
  read_text (mkEnv (fun _ => Ok []) [] Strict) (Some (lit "empty.txt"))
  = Ok [[]]
  /\ (1 <= length [lit "a"; lit "b"; lit "c"])%nat.
Proof.
  split.
  - apply (proj1 (proj2 read_text_never_empty)
             (mkEnv (fun _ => Ok []) [] Strict) (lit "empty.txt") []);
      reflexivity.
  - apply (proj1 read_text_never_empty
             (mkEnv (fun _ => Ok [x61; x0a; x62; x0a; x63]) [] Strict)
             (Some (lit "abc.txt"))).
    reflexivity.
Defined.

(** C8 (the code departs from it). Read from standard input, a byte that
    is not UTF-8 makes the loader raise UnicodeDecodeError: [read_text]
    applies the "replace" policy to the bytes of a file only, and
    [sys.stdin.read()] decodes under the stream's own handler, which is
    strict unless the interpreter is told otherwise. *)
Theorem read_text_stdin_decode_error :
  read_text (mkEnv (fun _ => Raise OSError) [xff] Strict) (Some (lit "-"))
  = Raise UnicodeDecodeError.
Proof. reflexivity. Qed.

(** The same byte in a file is replaced and the file loads. *)
Lemma read_text_file_replaces :
  read_text (mkEnv (fun _ => Ok [xff]) [] Strict) (Some (lit "f.txt"))
  = Ok [[replacement_char]].
Proof. reflexivity. Qed.

(** ** The directory browser *)

Section BrowserFacts.

Variable abspath : str -> str.
Variable join : str -> str -> str.
Variable dirname : str -> str.

(** The listing has at least the parent entry. *)
Lemma list_entries_nonempty (listing : res (list str)) (entries : list str) :
  list_entries listing = Ok entries -> 1 <= len entries.
Proof.
  unfold list_entries, len. intros H.
  destruct listing as [names | e].
  - injection H as <-. simpl length. lia.
  - destruct (is_Exception e); [| discriminate H].
    injection H as <-. simpl. lia.
Qed.

(** The up and down keys leave the index inside the list of the pass
    in which they are pressed. *)
Lemma browse_move_in_range (ev : BrowseEvent) (path : str) (idx : Z)
  (entries : list str) :
  list_entries (bev_listdir ev) = Ok entries ->
  is_in (bev_ch ev) [KEY_UP; ord "k"; KEY_DOWN; ord "j"] = true ->
  exists idx',
    browse_iter join dirname ev path idx = Ok (Browsing path idx') /\
    0 <= idx' <= len entries - 1.
Proof.
  intros Hentries Hkey. unfold browse_iter. rewrite Hentries. simpl bind.
  pose proof (list_entries_nonempty _ _ Hentries) as Hlen.
  unfold is_in in *. simpl existsb in *.
  destruct (Z.eqb_spec (bev_ch ev) KEY_UP) as [-> | Hup].
  { eexists. split; [reflexivity | apply clamp_bounds; lia]. }
  destruct (Z.eqb_spec (bev_ch ev) (ord "k")) as [-> | Hk].
  { eexists. split; [reflexivity | apply clamp_bounds; lia]. }
  destruct (Z.eqb_spec (bev_ch ev) KEY_DOWN) as [-> | Hdown].
  { eexists. split; [reflexivity | apply clamp_bounds; lia]. }
  destruct (Z.eqb_spec (bev_ch ev) (ord "j")) as [-> | Hj];
    [| discriminate Hkey].
  eexists. split; [reflexivity | apply clamp_bounds; lia].
Qed.

(** C5 (the code departs from it). The index is clamped against the
    list of the pass in which a key is pressed, and the next pass lists
    the directory again without clamping: after two moves down in a
    directory of two files, a listing that fails leaves the index 2 on
    the one-entry list, no row is drawn as selected, and Enter raises
    IndexError. *)
Theorem browse_dir_stale_index :
  let files := Ok [lit "a.txt"; lit "b.txt"] in
  let nodir := fun _ : str => false in
  let gone := mkBrowseEvent 24 (Raise OSError) nodir 10 in
  browse_dir abspath join dirname
    [mkBrowseEvent 24 files nodir KEY_DOWN;
     mkBrowseEvent 24 files nodir KEY_DOWN] (lit "d")
  = Ok (Browsing (abspath (lit "d")) 2)
  /\ list_entries (bev_listdir gone) = Ok [lit ".."]
  /\ browse_rows join gone (abspath (lit "d")) 2 [lit ".."]
     = [mkRow 0 (lit "..") false]
  /\ browse_dir abspath join dirname
       [mkBrowseEvent 24 files nodir KEY_DOWN;
        mkBrowseEvent 24 files nodir KEY_DOWN;
        gone] (lit "d")
     = Raise IndexError.
Proof. repeat split. Qed.

End BrowserFacts.

(** ** Worked examples *)

Example ex_decode_euro : utf8_decode Strict [xe2; x82; xac] = Ok [8364%N].
Proof. reflexivity. Qed.

Example ex_decode_replace :
  utf8_decode Replace [x61; xe2; x82; x62; xff] = Ok [97; 65533; 98; 65533]%N.
Proof. reflexivity. Qed.

Example ex_splitlines :
  splitlines (lit "a" ++ [10] ++ lit "b" ++ [13; 10; 10] ++ lit "c")%N
  = [lit "a"; lit "b"; []; lit "c"].
Proof. reflexivity. Qed.

Example ex_end_key :
  on_key lower_ascii 24 (ord "G") [] (ViewerState_init abg [])
  = Ok (Continue (set_cur (ViewerState_init abg []) 2)).
Proof. reflexivity. Qed.

Example ex_entries :
  list_entries (Ok [lit "b.txt"; lit "a.txt"; lit "sub"])
  = Ok [lit ".."; lit "a.txt"; lit "b.txt"; lit "sub"].
Proof. reflexivity. Qed.

(** * Further properties *)

(** ** More on search *)

(** X1. Backward search from a start index inside the buffer returns
    the greatest index at or before the start whose line contains the
    query, and -1 exactly when no line from the start down to line 0
    does. *)
Theorem search_backward_last_match (lower : str -> str) (st : ViewerState)
  (query : str) (start : Z) :
  wf st ->
  0 <= start <= total st - 1 ->
  exists r,
    search_backward lower st query (Some start) = Ok r /\
    (r = -1 <->
     forall j, 0 <= j <= start -> matches lower st query j = false) /\
    (r <> -1 ->
     0 <= r <= start /\ matches lower st query r = true /\
     forall j, r < j <= start -> matches lower st query j = false).
Proof.
  intros Hwf Hstart.
  destruct (search_backward_spec lower st query Hwf start)
    as [r [Hr Hcases]]; [lia |].
  exists r. split; [exact Hr |].
  destruct Hcases as [[Hnf Hnone] | [Hrange [Hhit Hafter]]].
  - split; [split; [intros _; exact Hnone | intros _; exact Hnf] |].
    intros Hfound. contradiction.
  - split.
    + split.
      * intros Hnf. lia.
      * intros Hnone. rewrite (Hnone r Hrange) in Hhit. discriminate.
    + intros _. split; [exact Hrange | split; [exact Hhit | exact Hafter]].
Qed.

Lemma search_backward_last_match_witness :
  exists r,
    search_backward lower_ascii (ViewerState_init abg []) (lit "A") (Some 2)
    = Ok r /\
    (r = -1 <->
     forall j, 0 <= j <= 2 ->
               matches lower_ascii (ViewerState_init abg []) (lit "A") j
               = false) /\
    (r <> -1 ->
     0 <= r <= 2 /\
     matches lower_ascii (ViewerState_init abg []) (lit "A") r = true /\
     forall j, r < j <= 2 ->
               matches lower_ascii (ViewerState_init abg []) (lit "A") j
               = false).
Proof.
  apply search_backward_last_match.
  - reflexivity.
  - simpl. lia.
Defined.

(** X2. When backward search from a line i inside the buffer finds a
    match at line j, then j <= i and forward search from j returns j. *)
Theorem search_forward_after_backward (lower : str -> str)
  (st : ViewerState) (query : str) (i j : Z) :
  wf st ->
  0 <= i <= total st - 1 ->
  search_backward lower st query (Some i) = Ok j ->
  j <> -1 ->
  0 <= j <= i /\ search_forward lower st query (Some j) = Ok j.
Proof.
  intros Hwf Hi Hbwd Hfound.
  destruct (search_backward_spec lower st query Hwf i) as [r [Hr Hcases]];
    [lia |].
  rewrite Hbwd in Hr. injection Hr as <-.
  destruct Hcases as [[Hnf _] | [Hrange [Hhit _]]]; [contradiction |].
  split; [lia |].
  destruct (search_forward_spec lower st query Hwf j) as [r [Hr Hcases]];
    [lia |].
  rewrite Hr. f_equal.
  destruct Hcases as [[_ Hnone] | [Hr_range [_ Hbefore]]].
  - rewrite (Hnone j) in Hhit by lia. discriminate.
  - destruct (Z.eq_dec r j) as [-> | Hne]; [reflexivity |].
    rewrite (Hbefore j) in Hhit by lia. discriminate.
Qed.

Lemma search_forward_after_backward_witness :
  0 <= 1 <= 2 /\
  search_forward lower_ascii (ViewerState_init abg []) (lit "eta") (Some 1)
  = Ok 1.
Proof.
  apply (search_forward_after_backward lower_ascii (ViewerState_init abg [])
           (lit "eta") 2 1).
  - reflexivity.
  - simpl. lia.
  - reflexivity.
  - discriminate.
Defined.

(** X3. Called without a start line, forward search starts one line
    after the current one and backward search one line before it: the
    result is never the current line, forward search returns -1 or an
    index after it, backward search -1 or an index before it. *)
Theorem search_default_skips_current (lower : str -> str)
  (st : ViewerState) (query : str) :
  wf st -> cur_in_range st ->
  (exists r, search_forward lower st query None = Ok r /\
             (r = -1 \/ (cur st < r < total st /\
                         matches lower st query r = true))) /\
  (exists r, search_backward lower st query None = Ok r /\
             (r = -1 \/ (0 <= r < cur st /\
                         matches lower st query r = true))).
Proof.
  intros Hwf Hcur. red in Hcur. split.
  - destruct (search_forward_spec lower st query Hwf (cur st + 1))
      as [r [Hr Hcases]]; [lia |].
    exists r. split; [exact Hr |].
    destruct Hcases as [[Hnf _] | [Hrange [Hhit _]]];
      [left; exact Hnf | right; split; [lia | exact Hhit]].
  - destruct (search_backward_spec lower st query Hwf (cur st - 1))
      as [r [Hr Hcases]]; [lia |].
    exists r. split; [exact Hr |].
    destruct Hcases as [[Hnf _] | [Hrange [Hhit _]]];
      [left; exact Hnf | right; split; [lia | exact Hhit]].
Qed.

Lemma search_default_skips_current_witness :
  (exists r,
      search_forward lower_ascii (ViewerState_init abg []) (lit "a") None
      = Ok r /\
      (r = -1 \/
       (cur (ViewerState_init abg []) < r < total (ViewerState_init abg [])
        /\ matches lower_ascii (ViewerState_init abg []) (lit "a") r = true)))
  /\
  (exists r,
      search_backward lower_ascii (ViewerState_init abg []) (lit "a") None
      = Ok r /\
      (r = -1 \/
       (0 <= r < cur (ViewerState_init abg []) /\
        matches lower_ascii (ViewerState_init abg []) (lit "a") r = true))).
Proof.
  apply search_default_skips_current.
  - reflexivity.
  - unfold cur_in_range. simpl. lia.
Defined.

(** ** More on the keys *)

(** The searches read [lines] and [total] only. *)
Lemma scan_up_same_lines (lower : str -> str) (st st' : ViewerState)
  (query : str) (n : nat) :
  lines st' = lines st ->
  forall i, scan_up lower st' query n i = scan_up lower st query n i.
Proof.
  intros Hlines. induction n as [| n' IH]; intros i; simpl; [reflexivity |].
  rewrite Hlines.
  destruct (getitem (lines st) i) as [line | e]; simpl; [| reflexivity].
  rewrite IH. reflexivity.
Qed.

Lemma search_forward_same_buffer (lower : str -> str) (st st' : ViewerState)
  (query : str) (start : Z) :
  same_buffer st st' ->
  search_forward lower st' query (Some start)
  = search_forward lower st query (Some start).
Proof.
  intros [Hlines [_ Htotal]]. unfold search_forward. rewrite Htotal.
  apply scan_up_same_lines. exact Hlines.
Qed.

(** X4. A search from the '/' prompt never moves the current line up and
    one from the '?' prompt never moves it down; where the current line
    moves, the new one contains the query. *)
Theorem prompt_search_direction (lower : str -> str) (maxy : Z)
  (typed : bytes) (st : ViewerState) (query : str) :
  wf st -> cur_in_range st ->
  utf8_decode Strict typed = Ok query ->
  (exists st',
      on_key lower maxy (ord "/") typed st = Ok (Continue st') /\
      cur st <= cur st' <= total st - 1 /\
      (cur st' = cur st \/ matches lower st query (cur st') = true)) /\
  (exists st',
      on_key lower maxy (ord "?") typed st = Ok (Continue st') /\
      0 <= cur st' <= cur st /\
      (cur st' = cur st \/ matches lower st query (cur st') = true)).
Proof.
  intros Hwf Hcur Hdec. red in Hcur. split.
  - rewrite on_key_slash, Hdec. simpl bind.
    destruct query as [| c q].
    { exists st. split; [reflexivity |]. split; [lia | left; reflexivity]. }
    cbv zeta. rewrite search_forward_set_search_q.
    destruct (search_forward_spec lower st (c :: q) Hwf (cur st))
      as [r [Hr Hcases]]; [lia |].
    rewrite Hr. simpl bind.
    destruct Hcases as [[-> _] | [Hrange [Hhit _]]].
    + eexists. split; [reflexivity |]. simpl. split; [lia | left; reflexivity].
    + destruct (Z.eqb_spec r (-1)) as [-> | Hfound]; [lia |].
      eexists. split; [reflexivity |]. simpl.
      split; [lia | right; exact Hhit].
  - rewrite on_key_question, Hdec. simpl bind.
    destruct query as [| c q].
    { exists st. split; [reflexivity |]. split; [lia | left; reflexivity]. }
    cbv zeta. rewrite search_backward_set_search_q.
    destruct (search_backward_spec lower st (c :: q) Hwf (cur st))
      as [r [Hr Hcases]]; [lia |].
    rewrite Hr. simpl bind.
    destruct Hcases as [[-> _] | [Hrange [Hhit _]]].
    + eexists. split; [reflexivity |]. simpl. split; [lia | left; reflexivity].
    + destruct (Z.eqb_spec r (-1)) as [-> | Hfound]; [lia |].
      eexists. split; [reflexivity |]. simpl.
      split; [lia | right; exact Hhit].
Qed.

Lemma prompt_search_direction_witness :
  (exists st',
      on_key lower_ascii 24 (ord "/") (list_byte_of_string "eta")
             (set_cur (ViewerState_init abg []) 2)
      = Ok (Continue st') /\
      cur (set_cur (ViewerState_init abg []) 2) <= cur st'
      <= total (set_cur (ViewerState_init abg []) 2) - 1 /\
      (cur st' = cur (set_cur (ViewerState_init abg []) 2) \/
       matches lower_ascii (set_cur (ViewerState_init abg []) 2) (lit "eta")
               (cur st') = true)) /\
  (exists st',
      on_key lower_ascii 24 (ord "?") (list_byte_of_string "eta")
             (set_cur (ViewerState_init abg []) 2)
      = Ok (Continue st') /\
      0 <= cur st' <= cur (set_cur (ViewerState_init abg []) 2) /\
      (cur st' = cur (set_cur (ViewerState_init abg []) 2) \/
       matches lower_ascii (set_cur (ViewerState_init abg []) 2) (lit "eta")
               (cur st') = true)).
Proof.
  apply prompt_search_direction.
  - reflexivity.
  - unfold cur_in_range. simpl. lia.
  - reflexivity.
Defined.

(** X5. Entering the same query at the '/' prompt a second time changes
    nothing: the search includes the current line, which is where the
    first search stopped. *)
Theorem slash_search_twice (lower : str -> str) (maxy maxy' : Z)
  (typed : bytes) (st st1 : ViewerState) :
  wf st -> cur_in_range st ->
  on_key lower maxy (ord "/") typed st = Ok (Continue st1) ->
  on_key lower maxy' (ord "/") typed st1 = Ok (Continue st1).
Proof.
  intros Hwf Hcur H1. red in Hcur.
  rewrite on_key_slash in *.
  destruct (utf8_decode Strict typed) as [[| c q] | e];
    simpl bind in *; [reflexivity | | discriminate H1].
  cbv zeta in *. rewrite search_forward_set_search_q in H1.
  destruct (search_forward_spec lower st (c :: q) Hwf (cur st))
    as [r [Hr Hcases]]; [lia |].
  rewrite Hr in H1. simpl bind in H1.
  assert (Hsame : same_buffer st st1 /\ search_q st1 = Some (c :: q) /\
                  (cur st1 = cur st /\ r = -1 \/ cur st1 = r /\ r <> -1)).
  { destruct (Z.eqb_spec r (-1)) as [Hnf | Hfound]; simpl in H1;
      injection H1 as <-; simpl; repeat split; auto. }
  destruct Hsame as [Hbuf [Hq Hcur1]].
  rewrite search_forward_set_search_q.
  rewrite (search_forward_same_buffer lower st st1 (c :: q) _ Hbuf).
  assert (Hagain : search_forward lower st (c :: q) (Some (cur st1)) = Ok r).
  { destruct Hcur1 as [[-> _] | [-> Hfound]]; [exact Hr |].
    destruct Hcases as [[Hnf _] | [Hrange [Hhit _]]]; [contradiction |].
    destruct (search_forward_spec lower st (c :: q) Hwf r)
      as [r2 [Hr2 Hcases2]]; [lia |].
    rewrite Hr2. f_equal.
    destruct Hcases2 as [[_ Hnone] | [Hrange2 [_ Hbefore]]].
    - rewrite (Hnone r) in Hhit by lia. discriminate.
    - destruct (Z.eq_dec r2 r) as [-> | Hne]; [reflexivity |].
      rewrite (Hbefore r) in Hhit by lia. discriminate. }
  rewrite Hagain. simpl bind.
  destruct st1 as [ls fn tot c1 tp hs sl sq]. simpl in *. subst sq.
  destruct Hcur1 as [[-> ->] | [-> Hfound]]; simpl; [reflexivity |].
  destruct (Z.eqb_spec r (-1)) as [Hnf | _]; [contradiction | reflexivity].
Qed.

Lemma slash_search_twice_witness :
  on_key lower_ascii 30 (ord "/") (list_byte_of_string "eta")
         (set_cur (set_search_q (ViewerState_init abg [])
                                (Some (lit "eta"))) 1)
  = Ok (Continue (set_cur (set_search_q (ViewerState_init abg [])
                                        (Some (lit "eta"))) 1)).
Proof.
  apply (slash_search_twice lower_ascii 24 30 (list_byte_of_string "eta")
           (ViewerState_init abg [])).
  - reflexivity.
  - unfold cur_in_range. simpl. lia.
  - reflexivity.
Defined.

(** X6. A key that the dispatch does not test for, and the F key while
    no query is stored, leave the viewer state as it was. *)
Theorem unbound_key_ignored (lower : str -> str) (maxy ch : Z)
  (typed : bytes) (st : ViewerState) :
  is_in ch bound_keys = false \/ (ch = ord "F" /\ search_q st = None) ->
  on_key lower maxy ch typed st = Ok (Continue st).
Proof.
  intros [Hfree | [-> Hnone]].
  - unfold is_in, bound_keys in Hfree. simpl existsb in Hfree.
    repeat (apply orb_false_elim in Hfree; destruct Hfree as [? Hfree]).
    unfold on_key, is_in. simpl existsb.
    repeat match goal with
    | H : (ch =? _) = false |- _ => rewrite H; clear H
    end.
    reflexivity.
  - rewrite on_key_F, Hnone. reflexivity.
Qed.

Lemma unbound_key_ignored_witness :
  on_key lower_ascii 24 (-1) [] (ViewerState_init abg [])
  = Ok (Continue (ViewerState_init abg [])).
Proof. apply unbound_key_ignored. left. reflexivity. Defined.

(** X7. Pressing n twice restores the viewer state. *)
Theorem linenums_toggle_twice (lower : str -> str) (maxy maxy' : Z)
  (typed typed' : bytes) (st : ViewerState) :
  exists st1,
    on_key lower maxy (ord "n") typed st = Ok (Continue st1) /\
    show_linenums st1 = negb (show_linenums st) /\
    on_key lower maxy' (ord "n") typed' st1 = Ok (Continue st).
Proof.
  eexists. split; [reflexivity |]. split; [reflexivity |].
  destruct st as [ls fn tot c tp hs sl sq].
  change (Ok (Continue (set_show_linenums
            (set_show_linenums (mkViewerState ls fn tot c tp hs sl sq)
                               (negb sl)) (negb (negb sl))))
          = Ok (Continue (mkViewerState ls fn tot c tp hs sl sq))).
  unfold set_show_linenums. simpl. rewrite negb_involutive. reflexivity.
Qed.

(** X8. The up and down keys undo each other away from the ends of the
    buffer, and do nothing at the ends: up on the first line and down on
    the last line leave the state as it was. *)
Theorem up_down_round_trip (lower : str -> str) (maxy : Z)
  (typed : bytes) (st : ViewerState) :
  cur_in_range st ->
  (0 < cur st ->
   exists st1,
     on_key lower maxy KEY_UP typed st = Ok (Continue st1) /\
     cur st1 = cur st - 1 /\
     on_key lower maxy KEY_DOWN typed st1 = Ok (Continue st)) /\
  (cur st < total st - 1 ->
   exists st1,
     on_key lower maxy KEY_DOWN typed st = Ok (Continue st1) /\
     cur st1 = cur st + 1 /\
     on_key lower maxy KEY_UP typed st1 = Ok (Continue st)) /\
  (cur st = 0 -> on_key lower maxy KEY_UP typed st = Ok (Continue st)) /\
  (cur st = total st - 1 ->
   on_key lower maxy KEY_DOWN typed st = Ok (Continue st)).
Proof.
  intros Hcur. red in Hcur.
  destruct st as [ls fn tot c tp hs sl sq]. simpl in Hcur. simpl cur.
  simpl total.
  change (on_key lower maxy KEY_UP typed) with
    (fun s => Ok (Continue (set_cur s (clamp (cur s - 1) 0 (total s - 1))))).
  change (on_key lower maxy KEY_DOWN typed) with
    (fun s => Ok (Continue (set_cur s (clamp (cur s + 1) 0 (total s - 1))))).
  unfold set_cur, clamp. simpl.
  repeat split.
  - intros Hpos. eexists. split; [reflexivity |]. simpl.
    split; [lia |]. do 3 f_equal. lia.
  - intros Hlast. eexists. split; [reflexivity |]. simpl.
    split; [lia |]. do 3 f_equal. lia.
  - intros ->. do 3 f_equal. lia.
  - intros Hlast. do 3 f_equal. lia.
Qed.

Lemma up_down_round_trip_witness :
  (exists st1,
      on_key lower_ascii 24 KEY_UP [] (set_cur (ViewerState_init abg []) 1)
      = Ok (Continue st1) /\
      cur st1 = cur (set_cur (ViewerState_init abg []) 1) - 1 /\
      on_key lower_ascii 24 KEY_DOWN [] st1
      = Ok (Continue (set_cur (ViewerState_init abg []) 1))) /\
  on_key lower_ascii 24 KEY_UP [] (ViewerState_init abg [])
  = Ok (Continue (ViewerState_init abg [])).
Proof.
  split.
  - apply (proj1 (up_down_round_trip lower_ascii 24 []
                    (set_cur (ViewerState_init abg []) 1)
                    ltac:(unfold cur_in_range; simpl; lia))).
    simpl. lia.
  - apply (proj1 (proj2 (proj2 (up_down_round_trip lower_ascii 24 []
                    (ViewerState_init abg [])
                    ltac:(unfold cur_in_range; simpl; lia))))).
    reflexivity.
Defined.

Lemma ensure_visible_fields (maxy : Z) (st : ViewerState) :
  same_buffer st (ensure_visible maxy st) /\
  cur (ensure_visible maxy st) = cur st /\
  hscroll (ensure_visible maxy st) = hscroll st /\
  show_linenums (ensure_visible maxy st) = show_linenums st /\
  search_q (ensure_visible maxy st) = search_q st.
Proof.
  unfold ensure_visible, same_buffer.
  destruct (cur st <? top st); [repeat split |].
  destruct (cur st >=? top st + maxy - 1); repeat split.
Qed.

(** X9. The right key pressed n times moves the horizontal offset by n
    and stops at 1000; the left key pressed n times moves it back by n
    and stops at 0.  The current line does not move. *)
Theorem hscroll_saturates (lower : str -> str) (maxy : Z) (typed : bytes)
  (n : nat) :
  forall st : ViewerState,
  hscroll_in_range st ->
  (exists st',
      run_from lower (repeat (mkEvent maxy KEY_RIGHT typed) n) st = Ok st' /\
      hscroll st' = Z.min 1000 (hscroll st + Z.of_nat n) /\
      cur st' = cur st) /\
  (exists st',
      run_from lower (repeat (mkEvent maxy KEY_LEFT typed) n) st = Ok st' /\
      hscroll st' = Z.max 0 (hscroll st - Z.of_nat n) /\
      cur st' = cur st).
Proof.
  induction n as [| n' IH]; intros st Hhs; red in Hhs.
  - split; exists st; (split; [reflexivity | split; [lia | reflexivity]]).
  - destruct (ensure_visible_fields maxy st) as [_ [Hc [Hh _]]].
    split.
    + simpl repeat. simpl run_from. unfold run_iter. simpl ev_maxy.
      simpl ev_ch. simpl ev_typed.
      change (on_key lower maxy KEY_RIGHT typed (ensure_visible maxy st))
        with (Ok (Continue (set_hscroll (ensure_visible maxy st)
                (clamp (hscroll (ensure_visible maxy st) + 1) 0 1000)))).
      simpl bind.
      destruct (IH (set_hscroll (ensure_visible maxy st)
                      (clamp (hscroll (ensure_visible maxy st) + 1) 0 1000)))
        as [[st' [Hrun [Hh' Hc']]] _].
      { unfold hscroll_in_range. simpl. apply clamp_bounds. lia. }
      exists st'. split; [exact Hrun |]. simpl in Hh', Hc'.
      rewrite Hh', Hc', Hh, Hc. unfold clamp. split; [lia | reflexivity].
    + simpl repeat. simpl run_from. unfold run_iter. simpl ev_maxy.
      simpl ev_ch. simpl ev_typed.
      change (on_key lower maxy KEY_LEFT typed (ensure_visible maxy st))
        with (Ok (Continue (set_hscroll (ensure_visible maxy st)
                (clamp (hscroll (ensure_visible maxy st) - 1) 0 1000)))).
      simpl bind.
      destruct (IH (set_hscroll (ensure_visible maxy st)
                      (clamp (hscroll (ensure_visible maxy st) - 1) 0 1000)))
        as [_ [st' [Hrun [Hh' Hc']]]].
      { unfold hscroll_in_range. simpl. apply clamp_bounds. lia. }
      exists st'. split; [exact Hrun |]. simpl in Hh', Hc'.
      rewrite Hh', Hc', Hh, Hc. unfold clamp. split; [lia | reflexivity].
Qed.

Lemma hscroll_saturates_witness :
  (exists st',
      run_from lower_ascii (repeat (mkEvent 24 KEY_RIGHT []) 3)
               (set_hscroll (ViewerState_init abg []) 999) = Ok st' /\
      hscroll st' =
      Z.min 1000 (hscroll (set_hscroll (ViewerState_init abg []) 999)
                  + Z.of_nat 3) /\
      cur st' = cur (set_hscroll (ViewerState_init abg []) 999)) /\
  (exists st',
      run_from lower_ascii (repeat (mkEvent 24 KEY_LEFT []) 3)
               (set_hscroll (ViewerState_init abg []) 999) = Ok st' /\
      hscroll st' =
      Z.max 0 (hscroll (set_hscroll (ViewerState_init abg []) 999)
               - Z.of_nat 3) /\
      cur st' = cur (set_hscroll (ViewerState_init abg []) 999)).
Proof.
  apply hscroll_saturates. unfold hscroll_in_range. simpl. lia.
Defined.

(** ** More on the viewport *)

(** X10. The viewport rule does not scroll when the current line is on
    screen, and for a terminal of at least 2 rows applying it twice is
    the same as applying it once. *)
Theorem ensure_visible_stable (maxy : Z) (st : ViewerState) :
  (cur_visible maxy st -> ensure_visible maxy st = st) /\
  (2 <= maxy ->
   ensure_visible maxy (ensure_visible maxy st) = ensure_visible maxy st).
Proof.
  assert (Hfix : forall s, cur_visible maxy s -> ensure_visible maxy s = s).
  { intros s Hvis. red in Hvis. unfold ensure_visible.
    destruct (Z.ltb_spec (cur s) (top s)) as [Hlt | _]; [lia |].
    destruct (Z.geb_spec (cur s) (top s + maxy - 1)) as [Hge | _]; [lia |].
    reflexivity. }
  split; [apply Hfix |].
  intros Hrows. apply Hfix. unfold cur_visible, ensure_visible.
  destruct (Z.ltb_spec (cur st) (top st)) as [Hlt | Hge]; simpl; [lia |].
  destruct (Z.geb_spec (cur st) (top st + maxy - 1)) as [Hbelow | Hin];
    simpl; lia.
Qed.

Lemma ensure_visible_stable_witness :
  ensure_visible 3 (ViewerState_init abg []) = ViewerState_init abg [] /\
  ensure_visible 2 (ensure_visible 2 (set_cur (ViewerState_init abg []) 2))
  = ensure_visible 2 (set_cur (ViewerState_init abg []) 2).
Proof.
  split.
  - apply (proj1 (ensure_visible_stable 3 (ViewerState_init abg []))).
    unfold cur_visible. simpl. lia.
  - apply (proj2 (ensure_visible_stable 2
                    (set_cur (ViewerState_init abg []) 2))).
    lia.
Defined.

(** ** The main loop as a whole *)











(** ** Drawing *)







(** ** More on the directory browser *)

Lemma list_entries_head (listing : res (list str)) (entries : list str) :
  list_entries listing = Ok entries ->
  exists rest, entries = lit ".." :: rest.
Proof.
  unfold list_entries. intros H. destruct listing as [names | e].
  - injection H as <-. eexists. reflexivity.
  - destruct (is_Exception e); [| discriminate H].
    injection H as <-. eexists. reflexivity.
Qed.

Section BrowserSafety.

Variable abspath : str -> str.
Variable join : str -> str -> str.
Variable dirname : str -> str.




(** X15. Backspace goes to the parent directory with the index reset to
    0 wherever the selection is, and so does Enter on the first entry,
    which is always "..", whatever the directory lists. *)
Theorem browse_parent (ev : BrowseEvent) (path : str) (entries : list str) :
  list_entries (bev_listdir ev) = Ok entries ->
  (is_in (bev_ch ev) [KEY_BACKSPACE; 127; 8] = true ->
   forall idx,
   browse_iter join dirname ev path idx = Ok (Browsing (dirname path) 0)) /\
  (is_in (bev_ch ev) [KEY_ENTER; 10; 13] = true ->
   browse_iter join dirname ev path 0 = Ok (Browsing (dirname path) 0)).
Proof.
  intros Hentries.
  destruct (list_entries_head _ _ Hentries) as [rest ->].
  destruct ev as [maxy listing isdir ch]. simpl in *.
  unfold browse_iter. simpl bev_listdir. simpl bev_ch. rewrite Hentries.
  simpl bind. unfold is_in. simpl existsb.
  split.
  - intros Hkey idx.
    repeat (apply orb_true_iff in Hkey; destruct Hkey as [Hkey | Hkey]);
      try discriminate Hkey; apply Z.eqb_eq in Hkey; subst ch; reflexivity.
  - intros Hkey.
    repeat (apply orb_true_iff in Hkey; destruct Hkey as [Hkey | Hkey]);
      try discriminate Hkey; apply Z.eqb_eq in Hkey; subst ch; reflexivity.
Qed.

End BrowserSafety.


Lemma browse_parent_witness :
  browse_iter (fun a b => a ++ lit "/" ++ b) (fun p => lit "/")
    (mkBrowseEvent 24 (Raise OSError) (fun _ => false) 127) (lit "/d") 5
  = Ok (Browsing (lit "/") 0)
  /\
  browse_iter (fun a b => a ++ lit "/" ++ b) (fun p => lit "/")
    (mkBrowseEvent 24 (Ok [lit "x"]) (fun _ => true) 13) (lit "/d") 0
  = Ok (Browsing (lit "/") 0).
Proof.
  split.
  - apply (proj1 (browse_parent (fun a b => a ++ lit "/" ++ b)
                    (fun p => lit "/")
                    (mkBrowseEvent 24 (Raise OSError) (fun _ => false) 127)
                    (lit "/d") [lit ".."] eq_refl)).
    reflexivity.
  - apply (proj2 (browse_parent (fun a b => a ++ lit "/" ++ b)
                    (fun p => lit "/")
                    (mkBrowseEvent 24 (Ok [lit "x"]) (fun _ => true) 13)
                    (lit "/d") [lit ".."; lit "x"] eq_refl)).
    reflexivity.
Defined.

Section BrowserRows.

Variable join : str -> str -> str.

Lemma rows_from_spec (isdir : str -> bool) (path : str) (idx : Z)
  (names : list str) :
  forall i : Z,
  length (rows_from join isdir path idx i names) = length names /\
  forall (k : nat) (row : Row),
    nth_error (rows_from join isdir path idx i names) k = Some row ->
    exists name,
      nth_error names k = Some name /\
      row = mkRow (i + Z.of_nat k)
              (name ++ (if isdir (join path name) then lit "/" else []))
              (i + Z.of_nat k =? idx).
Proof.
  induction names as [| name names' IH]; intros i; simpl.
  - split; [reflexivity |]. intros k row Hk. destruct k; discriminate Hk.
  - destruct (IH (i + 1)) as [Hlen Hrows]. split; [rewrite Hlen; reflexivity |].
    intros k row Hk. destruct k as [| k'].
    + injection Hk as <-. exists name.
      replace (i + Z.of_nat 0) with i by lia. split; reflexivity.
    + simpl in Hk. destruct (Hrows k' row Hk) as [nm [Hnm Hrow]].
      exists nm. replace (i + Z.of_nat (S k')) with (i + 1 + Z.of_nat k') by lia.
      split; [exact Hnm | exact Hrow].
Qed.

(** X16. On a terminal of at least one row the browser draws the first
    min(len(entries), maxy - 1) entries, entry k on screen line k with a
    "/" after the name of a directory, and one of them is in reverse
    video exactly when the selected index is below that number: a
    selection further down the list is not on screen. *)
Theorem browse_rows_window (ev : BrowseEvent) (path : str) (idx : Z)
  (entries : list str) :
  1 <= bev_maxy ev ->
  0 <= idx ->
  len (browse_rows join ev path idx entries)
  = Z.min (len entries) (bev_maxy ev - 1) /\
  (forall (k : nat) (row : Row),
      nth_error (browse_rows join ev path idx entries) k = Some row ->
      exists name,
        nth_error entries k = Some name /\
        row = mkRow (Z.of_nat k)
                (name ++
                 (if bev_isdir ev (join path name) then lit "/" else []))
                (Z.of_nat k =? idx)) /\
  (existsb row_reverse (browse_rows join ev path idx entries) = true <->
   idx < Z.min (len entries) (bev_maxy ev - 1)).
Proof.
  intros Hrows Hidx. unfold browse_rows, slice_to.
  destruct (Z.ltb_spec (bev_maxy ev - 1) 0) as [Hneg | _]; [lia |].
  set (n := Z.to_nat (bev_maxy ev - 1)).
  destruct (rows_from_spec (bev_isdir ev) path idx (firstn n entries) 0)
    as [Hlen Hnth].
  assert (Hcount : len (rows_from join (bev_isdir ev) path idx 0
                          (firstn n entries))
                   = Z.min (len entries) (bev_maxy ev - 1)).
  { unfold len. rewrite Hlen, length_firstn. lia. }
  assert (Hrow : forall (k : nat) (row : Row),
             nth_error (rows_from join (bev_isdir ev) path idx 0
                          (firstn n entries)) k = Some row ->
             exists name,
               nth_error entries k = Some name /\
               row = mkRow (Z.of_nat k)
                       (name ++
                        (if bev_isdir ev (join path name) then lit "/"
                         else []))
                       (Z.of_nat k =? idx)).
  { intros k row Hk. destruct (Hnth k row Hk) as [name [Hname ->]].
    exists name. rewrite nth_error_firstn in Hname.
    destruct (Nat.ltb k n); [| discriminate Hname].
    split; [exact Hname | reflexivity]. }
  split; [exact Hcount |]. split; [exact Hrow |].
  rewrite existsb_exists. split.
  - intros [row [Hin Hrev]].
    destruct (In_nth_error _ _ Hin) as [k Hk].
    assert (Hlt : (k < length (rows_from join (bev_isdir ev) path idx 0
                                 (firstn n entries)))%nat).
    { apply nth_error_Some. rewrite Hk. discriminate. }
    destruct (Hrow k row Hk) as [name [_ ->]]. simpl in Hrev.
    apply Z.eqb_eq in Hrev. unfold len in *. lia.
  - intros Hon.
    destruct (nth_error (rows_from join (bev_isdir ev) path idx 0
                           (firstn n entries)) (Z.to_nat idx))
      as [row |] eqn:Hk.
    + exists row. split; [apply (nth_error_In _ _ Hk) |].
      destruct (Hrow _ row Hk) as [name [_ ->]]. simpl.
      apply Z.eqb_eq. lia.
    + apply nth_error_None in Hk. unfold len in *. lia.
Qed.

End BrowserRows.

Lemma browse_rows_window_witness :
  len (browse_rows (fun a b => a ++ lit "/" ++ b)
         (mkBrowseEvent 3 (Ok []) (fun _ => false) 0) (lit "/d") 2
         [lit ".."; lit "a"; lit "b"])
  = Z.min (len [lit ".."; lit "a"; lit "b"]) (3 - 1) /\
  (existsb row_reverse
     (browse_rows (fun a b => a ++ lit "/" ++ b)
        (mkBrowseEvent 3 (Ok []) (fun _ => false) 0) (lit "/d") 2
        [lit ".."; lit "a"; lit "b"]) = true <->
   2 < Z.min (len [lit ".."; lit "a"; lit "b"]) (3 - 1)).
Proof.
  pose proof (browse_rows_window (fun a b => a ++ lit "/" ++ b)
                (mkBrowseEvent 3 (Ok []) (fun _ => false) 0) (lit "/d") 2
                [lit ".."; lit "a"; lit "b"]
                ltac:(simpl; lia) ltac:(lia)) as H.
  split; [exact (proj1 H) | exact (proj2 (proj2 H))].
Defined.

(** ** The order of the entries *)

Lemma str_leb_total (a : str) :
  forall b, str_leb a b = false -> str_leb b a = true.
Proof.
  induction a as [| x a' IH]; intros [| y b'] H; simpl in *;
    try discriminate H; try reflexivity.
  apply orb_false_elim in H as [Hlt Hrest]. apply N.ltb_ge in Hlt.
  destruct (N.eqb_spec x y) as [-> | Hne]; simpl in Hrest.
  - rewrite N.eqb_refl, (IH b' Hrest). apply orb_true_r.
  - assert (Hyx : (y < x)%N) by lia.
    apply N.ltb_lt in Hyx. rewrite Hyx. reflexivity.
Qed.

Lemma str_leb_trans (a : str) :
  forall b c, str_leb a b = true -> str_leb b c = true -> str_leb a c = true.
Proof.
  induction a as [| x a' IH]; intros [| y b'] [| z c'] Hab Hbc; simpl in *;
    try discriminate; try reflexivity.
  destruct (N.ltb_spec x y) as [Hxy | Hyx];
    destruct (N.ltb_spec y z) as [Hyz | Hzy];
    destruct (N.ltb_spec x z) as [Hxz | Hzx]; try reflexivity;
    destruct (N.eqb_spec x y) as [Exy | Nxy];
    destruct (N.eqb_spec y z) as [Eyz | Nyz];
    destruct (N.eqb_spec x z) as [Exz | Nxz];
    simpl in *; try discriminate; try (exfalso; lia).
  apply (IH b' c'); assumption.
Qed.

Lemma insert_sorted_perm (x : str) (l : list str) :
  Permutation (insert_sorted x l) (x :: l).
Proof.
  induction l as [| y l' IH]; simpl; [apply Permutation_refl |].
  destruct (str_leb x y); [apply Permutation_refl |].
  apply (perm_trans (perm_skip y IH)), perm_swap.
Qed.

Lemma insert_sorted_ordered (x : str) (l : list str) :
  StronglySorted (fun a b => str_leb a b = true) l ->
  StronglySorted (fun a b => str_leb a b = true) (insert_sorted x l).
Proof.
  induction l as [| y l' IH]; intros Hsorted; simpl.
  - constructor; constructor.
  - inversion Hsorted as [| y' l'' Htail Hhead]; subst.
    destruct (str_leb x y) eqn:Hxy.
    + constructor; [exact Hsorted |].
      constructor; [exact Hxy |].
      apply (Forall_impl _ (fun b Hb => str_leb_trans x y b Hxy Hb) Hhead).
    + constructor; [apply IH; exact Htail |].
      apply (Permutation_Forall (Permutation_sym (insert_sorted_perm x l'))).
      constructor; [apply str_leb_total; exact Hxy | exact Hhead].
Qed.

Lemma sorted_perm (l : list str) : Permutation (sorted l) l.
Proof.
  induction l as [| x l' IH]; simpl; [constructor |].
  apply (perm_trans (insert_sorted_perm x (sorted l'))), perm_skip, IH.
Qed.

Lemma sorted_ordered (l : list str) :
  StronglySorted (fun a b => str_leb a b = true) (sorted l).
Proof.
  induction l as [| x l' IH]; simpl; [constructor |].
  apply insert_sorted_ordered, IH.
Qed.

(** X17. The entry list of a pass starts with ".."; after it come the
    names that the directory lists, each as often as it is listed, in
    ascending order of code points; when listing fails with an
    exception, ".." is the only entry. *)
Theorem list_entries_ordered (listing : res (list str))
  (entries : list str) :
  list_entries listing = Ok entries ->
  exists rest,
    entries = lit ".." :: rest /\
    StronglySorted (fun a b => str_leb a b = true) rest /\
    match listing with
    | Ok names => Permutation rest names
    | Raise _ => rest = []
    end.
Proof.
  unfold list_entries. intros H. destruct listing as [names | e].
  - injection H as <-. exists (sorted names).
    split; [reflexivity |]. split; [apply sorted_ordered | apply sorted_perm].
  - destruct (is_Exception e); [| discriminate H].
    injection H as <-. exists []. split; [reflexivity |].
    split; [constructor | reflexivity].
Qed.

Lemma list_entries_ordered_witness :
  exists rest,
    [lit ".."; lit "a.txt"; lit "b.txt"; lit "sub"] = lit ".." :: rest /\
    StronglySorted (fun a b => str_leb a b = true) rest /\
    Permutation rest [lit "b.txt"; lit "a.txt"; lit "sub"].
Proof.
  apply (list_entries_ordered (Ok [lit "b.txt"; lit "a.txt"; lit "sub"])).
  reflexivity.
Defined.

(** ** More on the loader *)

(** X18. For a path other than "-" the loader fails exactly when
    opening or reading the file fails, with the same exception; the
    bytes of a file that was read always load, as the lines of their
    decoding under the "replace" policy. *)
Theorem file_load_fails_only_on_read (env : Env) (p : str) :
  str_eqb p (lit "-") = false ->
  (forall e, read_text env (Some p) = Raise e <-> open_rb env p = Raise e) /\
  (forall raw,
      open_rb env p = Ok raw ->
      exists data,
        utf8_decode Replace raw = Ok data /\
        read_text env (Some p) =
        Ok (match splitlines data with
            | [] => [[]]
            | _ :: _ => splitlines data
            end)).
Proof.
  intros Hp. unfold read_text, read_data. rewrite Hp.
  destruct (open_rb env p) as [raw | e0]; simpl bind.
  - destruct (utf8_decode_replace_total raw) as [data Hdata].
    rewrite Hdata. simpl bind. split.
    + intros e. split; intros H; discriminate H.
    + intros raw' Hraw. injection Hraw as <-. exists data.
      split; [exact Hdata | reflexivity].
  - split.
    + intros e. split; intros H; injection H as ->; reflexivity.
    + intros raw Hraw. discriminate Hraw.
Qed.

Lemma file_load_fails_only_on_read_witness :
  (forall e,
      read_text (mkEnv (fun _ => Raise OSError) [] Strict)
                (Some (lit "missing.txt")) = Raise e <->
      Raise (A := bytes) OSError = Raise e) /\
  exists data,
    utf8_decode Replace [x61; xff] = Ok data /\
    read_text (mkEnv (fun _ => Ok [x61; xff]) [] Strict) (Some (lit "f.txt"))
    = Ok (match splitlines data with
          | [] => [[]]
          | _ :: _ => splitlines data
          end).
Proof.
  split.
  - apply (proj1 (file_load_fails_only_on_read
                    (mkEnv (fun _ => Raise OSError) [] Strict)
                    (lit "missing.txt") eq_refl)).
  - apply (proj2 (file_load_fails_only_on_read
                    (mkEnv (fun _ => Ok [x61; xff]) [] Strict)
                    (lit "f.txt") eq_refl)).
    reflexivity.
Defined.

Lemma splitlines_from_one_line (n : nat) :
  forall (s cur : str),
  (length s <= n)%nat -> one_line cur ->
  Forall one_line (splitlines_from cur s).
Proof.
  induction n as [| n' IH]; intros s cur Hlen Hcur.
  - destruct s as [| c r]; [| simpl in Hlen; lia].
    simpl. destruct cur; [constructor |].
    constructor; [apply Forall_rev; exact Hcur | constructor].
  - destruct s as [| c r].
    + simpl. destruct cur; [constructor |].
      constructor; [apply Forall_rev; exact Hcur | constructor].
    + simpl in Hlen.
      assert (Hnext : forall t, (length t <= n')%nat ->
                Forall one_line (rev cur :: splitlines_from [] t)).
      { intros t Ht. constructor; [apply Forall_rev; exact Hcur |].
        apply IH; [exact Ht | constructor]. }
      simpl splitlines_from.
      destruct (c =? 13)%N.
      * destruct r as [| d r']; [apply Hnext; simpl; lia |].
        simpl in Hlen.
        destruct d as [| p]; [apply Hnext; simpl; lia |].
        do 4 (try destruct p as [p | p |]);
          apply Hnext; simpl; lia.
      * destruct (is_linebreak c) eqn:Hbreak; [apply Hnext; lia |].
        apply IH; [lia |]. constructor; [exact Hbreak | exact Hcur].
Qed.

(** X19. No line of a loaded buffer contains a line boundary (LF, CR,
    VT, FF, FS, GS, RS, NEL, LS or PS). *)
Theorem read_text_lines_have_no_breaks (env : Env) (path : option str)
  (ls : list str) :
  read_text env path = Ok ls -> Forall one_line ls.
Proof.
  destruct path as [p |]; simpl; [| intros H; discriminate H].
  destruct (read_data env p) as [data | e]; simpl; [| intros H; discriminate H].
  intros H. injection H as <-.
  pose proof (splitlines_from_one_line (length data) data [] (le_n _)
                (Forall_nil _)) as Hsplit.
  fold (splitlines data) in Hsplit.
  destruct (splitlines data) as [| l ls']; [| exact Hsplit].
  constructor; constructor.
Qed.

Lemma read_text_lines_have_no_breaks_witness :
  Forall one_line [lit "a"; lit "b"; []; lit "c"].
Proof.
  apply (read_text_lines_have_no_breaks
           (mkEnv (fun _ => Ok [x61; x0d; x0a; x62; x0d; x0d; x63]) []
                  Strict)
           (Some (lit "f.txt"))).
  reflexivity.
Defined.

(** ** The program as a whole *)




(** ** Find next and the decoder *)

(** X21. With a stored query the F key stops at the nearest match below
    the current line: no line between the old and the new current line
    contains the query, and when the current line does not move, no
    line after it does. *)
Theorem find_next_is_nearest (lower : str -> str) (maxy : Z)
  (typed : bytes) (st : ViewerState) (query : str) :
  wf st -> cur_in_range st ->
  search_q st = Some query -> query <> [] ->
  exists st',
    on_key lower maxy (ord "F") typed st = Ok (Continue st') /\
    (forall j, cur st < j < cur st' -> matches lower st query j = false) /\
    (cur st' = cur st ->
     forall j, cur st < j < total st -> matches lower st query j = false) /\
    (cur st' <> cur st -> matches lower st query (cur st') = true).
Proof.
  intros Hwf Hcur Hsq Hne. red in Hcur.
  destruct (search_forward_spec lower st query Hwf (cur st + 1))
    as [r [Hr Hcases]]; [lia |].
  rewrite on_key_F, Hsq.
  destruct query as [| c q]; [contradiction |].
  rewrite Hr. simpl bind.
  destruct Hcases as [[-> Hnone] | [Hrange [Hhit Hbefore]]].
  - exists st. split; [reflexivity |]. split; [intros j Hj; lia |].
    split; [intros _ j Hj; apply Hnone; lia | intros Hmoved; contradiction].
  - destruct (Z.eqb_spec r (-1)) as [Hnf | Hfound]; [lia |].
    exists (set_cur st r). split; [reflexivity |]. simpl.
    split; [intros j Hj; apply Hbefore; lia |].
    split; [intros Hstay; lia | intros _; exact Hhit].
Qed.

Lemma find_next_is_nearest_witness :
  exists st',
    on_key lower_ascii 24 (ord "F") []
      (set_search_q (ViewerState_init abg []) (Some (lit "mm")))
    = Ok (Continue st') /\
    (forall j,
        cur (set_search_q (ViewerState_init abg []) (Some (lit "mm"))) < j
        < cur st' ->
        matches lower_ascii
          (set_search_q (ViewerState_init abg []) (Some (lit "mm")))
          (lit "mm") j = false) /\
    (cur st' = cur (set_search_q (ViewerState_init abg []) (Some (lit "mm")))
     -> forall j,
        cur (set_search_q (ViewerState_init abg []) (Some (lit "mm"))) < j
        < total (set_search_q (ViewerState_init abg []) (Some (lit "mm"))) ->
        matches lower_ascii
          (set_search_q (ViewerState_init abg []) (Some (lit "mm")))
          (lit "mm") j = false) /\
    (cur st' <> cur (set_search_q (ViewerState_init abg [])
                                  (Some (lit "mm"))) ->
     matches lower_ascii
       (set_search_q (ViewerState_init abg []) (Some (lit "mm")))
       (lit "mm") (cur st') = true).
Proof.
  apply find_next_is_nearest.
  - reflexivity.
  - unfold cur_in_range. simpl. lia.
  - reflexivity.
  - discriminate.
Defined.

Lemma cons_res_inv (c : N) (r : res str) (s : str) :
  cons_res c r = Ok s -> exists s', r = Ok s' /\ s = c :: s'.
Proof.
  destruct r as [s' | e]; simpl; intros H; [| discriminate H].
  injection H as <-. exists s'. split; reflexivity.
Qed.

Lemma utf8_go_strict_replace (l : list N) :
  forall (st : dstate) (s : str),
  utf8_go Strict st l = Ok s -> utf8_go Replace st l = Ok s.
Proof.
  induction l as [| b r IH]; intros st s; simpl.
  - destruct st; [intros H; exact H | intros H; discriminate H].
  - assert (Hfresh :
      match lead b with
      | Emit c => cons_res c (utf8_go Strict Idle r)
      | Need st' => utf8_go Strict st' r
      | Bad => Raise UnicodeDecodeError
      end = Ok s ->
      match lead b with
      | Emit c => cons_res c (utf8_go Replace Idle r)
      | Need st' => utf8_go Replace st' r
      | Bad => cons_res replacement_char (utf8_go Replace Idle r)
      end = Ok s).
    { destruct (lead b) as [c | st' |]; intros H.
      - destruct (cons_res_inv _ _ _ H) as [s' [Hs' ->]].
        rewrite (IH _ _ Hs'). reflexivity.
      - apply IH. exact H.
      - discriminate H. }
    destruct st as [| need cp lo hi]; [exact Hfresh |].
    destruct (between lo hi b); [| intros H; discriminate H].
    destruct need as [| n]; intros H.
    + destruct (cons_res_inv _ _ _ H) as [s' [Hs' ->]].
      rewrite (IH _ _ Hs'). reflexivity.
    + apply IH. exact H.
Qed.

(** X22. Bytes that decode under the strict policy decode to the same
    text under the "replace" policy: a file of well-formed UTF-8 is
    loaded without any replacement. *)
Theorem utf8_replace_keeps_valid (raw : bytes) (s : str) :
  utf8_decode Strict raw = Ok s -> utf8_decode Replace raw = Ok s.
Proof. apply utf8_go_strict_replace. Qed.

Lemma utf8_replace_keeps_valid_witness :
  utf8_decode Replace [xe2; x82; xac; x21] = Ok [8364; 33]%N.
Proof. apply utf8_replace_keeps_valid. reflexivity. Defined.
